(** * The Untappd data pipeline: a shallow embedding of its four scripts

    The repository holds four Python scripts that run as scheduled jobs:

    - [update-untappd-rss-feed-data.py]   (module [Update]): polls the feeds and
      stores every post whose id exceeds the stored watermark;
    - [parse-untappd-rss-feed-data.py]    (module [Parse]): turns stored posts
      into rows of an aggregate table and advances a per-brewery cursor;
    - [get-untappd-venue-locations.py]    (module [Enrich]): fills the venue
      registry from Untappd pages and the Foursquare search API;
    - [clean-and-backup-untappd-data.py]  (module [Premium]): retries the rows
      marked ['Missing'] with the Foursquare details API.

    Python values are embedded as an inductive type, lists as [list], the
    insertion-ordered [dict] as an association list, exceptions as a sum type,
    and calls to the outside world (HTTP, sleeping, the clock, the object
    store) as a log of events answered by an oracle that sees the log. *)

From Stdlib Require Import List String Ascii ZArith Bool Lia PeanoNat.
From Stdlib Require QArith_base.
Import ListNotations.
Local Open Scope string_scope.

Set Implicit Arguments.

(* ================================================================== *)
(** ** Python exceptions and fallible results *)

Inductive exn : Type :=
| KeyError
| IndexError
| TypeError
| AttributeError
| ValueError
| StopIteration
| KeyboardInterrupt.

(** [Unfinished] is not a Python outcome: it marks a run of the model that
    stopped unrolling a [while True] loop. *)
Inductive result (A : Type) : Type :=
| Ok (a : A)
| Raise (e : exn)
| Unfinished.

Arguments Ok {A} a.
Arguments Raise {A} e.
Arguments Unfinished {A}.

Definition rbind {A B : Type} (m : result A) (k : A -> result B) : result B :=
  match m with
  | Ok a => k a
  | Raise e => Raise e
  | Unfinished => Unfinished
  end.

Declare Scope result_scope.
Delimit Scope result_scope with res.
Notation "x <- m ;; k" := (rbind m (fun x => k))
  (at level 61, m at next level, right associativity) : result_scope.

(** [l[i]] for a non-negative index. *)
Definition index {A : Type} (l : list A) (i : nat) : result A :=
  match nth_error l i with
  | Some a => Ok a
  | None => Raise IndexError
  end.

(* ================================================================== *)
(** ** The string methods the scripts use

    Strings are sequences of ASCII characters.  Every separator passed to
    [split] in the scripts is a non-empty literal. *)

Module PyStr.

(** [sub in s] *)
Fixpoint contains (sub s : string) : bool :=
  String.prefix sub s ||
  match s with
  | EmptyString => false
  | String _ s' => contains sub s'
  end.

Definition lower_ascii (c : ascii) : ascii :=
  let n := nat_of_ascii c in
  if (65 <=? n)%nat && (n <=? 90)%nat then ascii_of_nat (n + 32) else c.

(** [s.lower()] *)
Fixpoint lower (s : string) : string :=
  match s with
  | EmptyString => EmptyString
  | String c s' => String (lower_ascii c) (lower s')
  end.

(** [sep.join(l)] *)
Definition join (sep : string) (l : list string) : string :=
  String.concat sep l.

Definition may_cut (maxsplit : option nat) : bool :=
  match maxsplit with
  | Some O => false
  | _ => true
  end.

Definition after_cut (maxsplit : option nat) : option nat :=
  match maxsplit with
  | Some n => Some (Nat.pred n)
  | None => None
  end.

(** The scan behind [s.split(sep)] and [s.split(sep, maxsplit)]: read [s]
    from the left; where [sep] starts (and a cut is still allowed), close
    the current piece and jump over [sep]; otherwise the character joins the
    current piece.  [skip] counts the characters of a separator still to be
    jumped over, [cur] is the piece being read. *)
Fixpoint split_go (sep : string) (maxsplit : option nat) (skip : nat)
         (cur : string) (s : string) : list string :=
  match s with
  | EmptyString => [cur]
  | String c s' =>
      match skip with
      | S k => split_go sep maxsplit k cur s'
      | O =>
          if may_cut maxsplit && String.prefix sep s
          then cur :: split_go sep (after_cut maxsplit)
                        (Nat.pred (String.length sep)) "" s'
          else split_go sep maxsplit 0 (cur ++ String c "") s'
      end
  end.

(** [s.split(sep)] *)
Definition split (s sep : string) : list string :=
  split_go sep None 0 "" s.

(** [s.split(sep, n)] *)
Definition splitn (s sep : string) (n : nat) : list string :=
  split_go sep (Some n) 0 "" s.

(** [l[-1]] of the list a [split] returns, which is never empty. *)
Definition last_piece (l : list string) : string := List.last l "".

(** The characters of [s], as Python iterates a string. *)
Fixpoint chars (s : string) : list string :=
  match s with
  | EmptyString => []
  | String c s' => String c "" :: chars s'
  end.

Fixpoint rev (s : string) : string :=
  match s with
  | EmptyString => EmptyString
  | String c s' => rev s' ++ String c ""
  end.

(** [s.rsplit(sep, 1)]: the same scan, read from the right. *)
Definition rsplit1 (s sep : string) : list string :=
  List.rev (map rev (split_go (rev sep) (Some 1%nat) 0 "" (rev s))).

End PyStr.



(* ================================================================== *)
(** ** Python's [dict] with string keys

    An association list in insertion order: [d[k] = v] replaces the value of
    a key that is present, where it stands, and appends a new key. *)

Module Dict.

Definition t (V : Type) : Type := list (string * V).

Fixpoint get {V : Type} (d : t V) (k : string) : option V :=
  match d with
  | [] => None
  | (k', v) :: d' => if String.eqb k k' then Some v else get d' k
  end.

Fixpoint set {V : Type} (d : t V) (k : string) (v : V) : t V :=
  match d with
  | [] => [(k, v)]
  | (k', v') :: d' =>
      if String.eqb k k' then (k', v) :: d' else (k', v') :: set d' k v
  end.

(** [k in d] *)
Definition mem {V : Type} (d : t V) (k : string) : bool :=
  match get d k with
  | Some _ => true
  | None => false
  end.

Definition keys {V : Type} (d : t V) : list string := map fst d.

(** [d[k]] *)
Definition lookup {V : Type} (d : t V) (k : string) : result V :=
  match get d k with
  | Some v => Ok v
  | None => Raise KeyError
  end.

End Dict.

(* ================================================================== *)
(** ** Programs with a state and exceptions

    A program reads and writes a state and ends with a value, a raised
    exception or [Unfinished]; the state reached is kept in every case, as
    Python keeps what was assigned before an exception. *)

Definition M (S A : Type) : Type := S -> result A * S.

Definition ret {S A : Type} (a : A) : M S A := fun s => (Ok a, s).

Definition bind {S A B : Type} (m : M S A) (k : A -> M S B) : M S B :=
  fun s =>
    match m s with
    | (Ok a, s') => k a s'
    | (Raise e, s') => (Raise e, s')
    | (Unfinished, s') => (Unfinished, s')
    end.

Definition lift {S A : Type} (r : result A) : M S A := fun s => (r, s).

Definition gets {S A : Type} (f : S -> A) : M S A := fun s => (Ok (f s), s).

Definition modify {S : Type} (f : S -> S) : M S unit := fun s => (Ok tt, f s).

(** A specification of a program: from a state in [P] it ends with a value
    and a state in [Q], or without a value in a state in [E]. *)
Definition triple {S A : Type} (P : S -> Prop) (m : M S A)
           (Q : A -> S -> Prop) (E : S -> Prop) : Prop :=
  forall s, P s ->
            match m s with
            | (Ok a, s') => Q a s'
            | (_, s') => E s'
            end.

(** A program that keeps [P], however it ends. *)
Definition keeps {S A : Type} (P : S -> Prop) (m : M S A) : Prop :=
  triple P m (fun _ => P) P.

Declare Scope prog_scope.
Delimit Scope prog_scope with prog.
Notation "x <- m ;; k" := (bind m (fun x => k))
  (at level 61, m at next level, right associativity) : prog_scope.
Notation "m ;;; k" := (bind m (fun _ => k))
  (at level 61, right associativity) : prog_scope.

(* ================================================================== *)
(** ** update-untappd-rss-feed-data.py *)

Module Update.

(** A feed entry, as far as the run reads it: [post['id']] and
    [post['title_detail']['base']]; [None] where a key on the path is
    absent. *)
Record post : Type := { id : option string; base : option string }.

(** The calls to the object store, logged when they complete. *)
Inductive event : Type :=
| GetLastUpdate                         (* get_last_update_id *)
| PutPost (brewery : string) (id : Z)   (* write_post_to_s3: key brewery/brewery-id *)
| PutLastUpdate (id : Z).               (* set_last_update_id *)

Section Run.

(** Python's [int] applied to a string. *)
Variable py_int : string -> result Z.

(** The object store in one run: a call fails with the exception the store
    raises, depending on the calls completed so far, or completes. *)
Variable fault : list event -> option exn.

(** The id that last_update.json holds when the run starts. *)
Variable stored : Z.

Definition call {A : Type} (ev : event) (a : A) : M (list event) A :=
  fun log =>
    match fault log with
    | Some e => (Raise e, log)
    | None => (Ok a, (log ++ [ev])%list)
    end.

(** [s.rsplit('/', 1)[-1]] under a key that may be absent. *)
Definition after_last_slash (value : option string) : result string :=
  match value with
  | Some s => Ok (PyStr.last_piece (PyStr.rsplit1 s "/"))
  | None => Raise KeyError
  end.

(** [int(post['id'].rsplit('/', 1)[-1])] *)
Definition post_id (p : post) : result Z :=
  (s <- after_last_slash (id p) ;; py_int s)%res.

Local Open Scope prog_scope.

(** [get_last_update_id].  In the source its call reads
    [client.get_object(Bucket=, Key='last_update.json')], which Python does
    not accept; the call is taken with the bucket that [set_last_update_id]
    and [write_post_to_s3] pass, as a read of the stored id. *)
Definition get_last_update_id : M (list event) Z :=
  call GetLastUpdate stored.

Definition set_last_update_id (id : Z) : M (list event) unit :=
  call (PutLastUpdate id) tt.

Definition write_post_to_s3 (p : post) (post_id : Z) : M (list event) unit :=
  brewery_id <- lift (after_last_slash (base p)) ;;
  call (PutPost brewery_id post_id) tt.

(** The [for post in posts] loop of [main]; returns [most_recent_id]. *)
Fixpoint loop (last_update_id : Z) (posts : list post) (most_recent_id : Z)
  : M (list event) Z :=
  match posts with
  | [] => ret most_recent_id
  | p :: rest =>
      i <- lift (post_id p) ;;
      if (i >? last_update_id)%Z
      then write_post_to_s3 p i ;;;
           loop last_update_id rest (Z.max most_recent_id i)
      else loop last_update_id rest most_recent_id
  end.

(** [main], given the entries the feeds deliver. *)
Definition main (posts : list post) : M (list event) unit :=
  last_update_id <- get_last_update_id ;;
  most_recent_id <- loop last_update_id posts last_update_id ;;
  set_last_update_id most_recent_id.

(** The ids of the delivered entries that exceed the stored id, in delivery
    order; an entry whose id cannot be read has none. *)
Definition above (p : post) : list Z :=
  match post_id p with
  | Ok i => if (i >? stored)%Z then [i] else []
  | _ => []
  end.

Definition ids_above (posts : list post) : list Z := flat_map above posts.

End Run.

(** The ids of the posts a log shows as written. *)
Definition written (log : list event) : list Z :=
  flat_map (fun e => match e with PutPost _ i => [i] | _ => [] end) log.

Definition is_put (e : event) : bool :=
  match e with
  | PutPost _ _ => true
  | _ => false
  end.

(** The id that last_update.json holds after the calls of [log]. *)
Fixpoint stored_after (stored : Z) (log : list event) : Z :=
  match log with
  | [] => stored
  | PutLastUpdate i :: rest => stored_after i rest
  | _ :: rest => stored_after stored rest
  end.

(** One run: how the store behaves in it and what the feeds deliver. *)
Record delivery : Type :=
  { faults : list event -> option exn; posts : list post }.

Definition run (py_int : string -> result Z) (stored : Z) (d : delivery)
  : result unit * list event :=
  main py_int (faults d) stored (posts d) [].


End Update.

(* ================================================================== *)
(** ** parse-untappd-rss-feed-data.py *)

Module Parse.

(** [split(strng, sep, n)]: split by the n-th occurrence of [sep]. *)
Definition split (strng sep : string) (n : nat) : string * string :=
  let parts := PyStr.split strng sep in
  (PyStr.join sep (firstn n parts), PyStr.join sep (skipn n parts)).

Definition beer_ex_list : list string :=
  ["victory at sea"; "murder at schrute farm...death by fire"].

(** The lines of [parse_post] that read the title: the pair of the beer name
    and the location appended to the row.  [s] is a 2-tuple, so the test
    [len(s) > 1] always holds and the location is [s[1]]. *)
Definition parse_title (title : string) : result (string * string) :=
  (let loc_idx :=
     if existsb (fun sbstr => PyStr.contains sbstr (PyStr.lower title))
          beer_ex_list
     then 2%nat else 1%nat in
   let s := split title " at " loc_idx in
   let y := PyStr.split (fst s) " is drinking " in
   y1 <- index y 1 ;;
   beer <- index (PyStr.splitn y1 " " 1) 1 ;;
   Ok (beer, snd s))%res.

(** The fields of a stored post that [parse_post] reads. *)
Record payload : Type :=
  { link : string; title : string; summary : string; published : string }.

(** The row [parse_post] builds, column by column. *)
Record row : Type :=
  { guid : Z;
    username : string;
    brewery : string;
    beer : string;
    venue : string;
    comment : string;
    rating : option QArith_base.Q;     (* [None] is the empty cell *)
    date : string;
    url : string }.

(** [l[-3]] *)
Definition third_from_end (l : list string) : result string :=
  index (List.rev l) 2.

Section Builtins.

(** Python's [int] and [float] applied to a string. *)
Variable py_int : string -> result Z.
Variable py_float : string -> result QArith_base.Q.

(** Python's [csv] module: the rows [csv.reader] yields for the text of a
    file, and the text [csv.writer] writes for a parsed row and for a row
    of strings, line terminator included. *)
Variable csv_reader : string -> list (list string).
Variable csv_row : row -> string.
Variable csv_line : list string -> string.

(** [float(...)] under [except ValueError: rating = ''] *)
Definition parse_rating (text : string) : result (option QArith_base.Q) :=
  match py_float text with
  | Ok q => Ok (Some q)
  | Raise ValueError => Ok None
  | Raise e => Raise e
  | Unfinished => Unfinished
  end.

(** [parse_post] after the post was fetched and decoded. *)
Definition parse_row (post_id : string) (post : payload) : result row :=
  (g <- py_int (PyStr.last_piece (PyStr.split post_id "-")) ;;
   u <- third_from_end (PyStr.split (link post) "/") ;;
   b <- index (PyStr.split post_id "/") 0 ;;
   bv <- parse_title (title post) ;;
   cr <- match PyStr.rsplit1 (summary post) "(" with
         | [c; r] =>
             first <- index (PyStr.split r "/5 Stars") 0 ;;
             x <- parse_rating first ;;
             Ok (c, x)
         | [c] => Ok (c, None)
         | _ => Ok ("", None)
         end ;;
   Ok {| guid := g; username := u; brewery := b; beer := fst bv;
         venue := snd bv; comment := fst cr; rating := snd cr;
         date := published post; url := link post |})%res.

(** The calls that reach the object store, logged when they complete. *)
Inductive event : Type :=
| GetLastParsed
| ListObjects (prefix start_after : string)
| GetObject (key : string)
| DownloadAggregate
| DownloadVenueList
| UploadAggregate (text : string)
| UploadVenueList (text : string)
| PutLastParsed (ids : Dict.t string).

(** The object store, as the run sees it: every answer may depend on the
    calls completed so far, and every call may fail. *)
Record world : Type :=
  { fault : list event -> option exn;
    last_parsed_json : list event -> Dict.t string;
    contents : list event -> string -> string -> list string;
    object_body : list event -> string -> payload;
    aggregate_csv : list event -> string;    (* the text of the file *)
    venue_list_csv : list event -> string }.

(** The variables of [main] and the log of completed calls. *)
Record state : Type :=
  { last_parsed_ids : Dict.t string;
    rows : list row;
    log : list event }.

Definition set_ids (f : Dict.t string -> Dict.t string) (s : state) : state :=
  {| last_parsed_ids := f (last_parsed_ids s); rows := rows s; log := log s |}.

Definition add_row (r : row) (s : state) : state :=
  {| last_parsed_ids := last_parsed_ids s; rows := (rows s ++ [r])%list;
     log := log s |}.

Variable w : world.

(** A call to the store: it fails with the exception the store raises, or
    completes, is logged, and yields the store's answer. *)
Definition call {A : Type} (ev : event) (answer : list event -> A)
  : M state A :=
  fun s =>
    match fault w (log s) with
    | Some e => (Raise e, s)
    | None =>
        (Ok (answer (log s)),
         {| last_parsed_ids := last_parsed_ids s; rows := rows s;
            log := (log s ++ [ev])%list |})
    end.

Local Open Scope prog_scope.

Definition get_last_parsed_ids (breweries : list string) : M state unit :=
  ids <- call GetLastParsed (last_parsed_json w) ;;
  modify (set_ids (fun _ =>
    fold_left (fun ids brewery =>
                 if Dict.mem ids brewery then ids else Dict.set ids brewery "")
              breweries ids)).

Definition set_last_parsed_ids : M state unit :=
  ids <- gets last_parsed_ids ;;
  call (PutLastParsed ids) (fun _ => tt).

Definition get_next_post_ids (brewery start : string) : M state (list string) :=
  let start :=
    if String.eqb start "" then ""
    else (brewery ++ "/" ++ brewery ++ "-" ++ start)%string in
  let prefix := (brewery ++ "/" ++ brewery ++ "-")%string in
  call (ListObjects prefix start) (fun l => contents w l prefix start).

Definition parse_post (post_id : string) : M state row :=
  post <- call (GetObject post_id) (fun l => object_body w l post_id) ;;
  lift (parse_row post_id post).

(** [for obj in next_post_ids] *)
Fixpoint parse_page (brewery : string) (next_post_ids : list string)
  : M state unit :=
  match next_post_ids with
  | [] => ret tt
  | key :: rest =>
      r <- parse_post key ;;
      modify (add_row r) ;;;
      modify (set_ids (fun ids =>
        Dict.set ids brewery (PyStr.last_piece (PyStr.split key "-")))) ;;;
      parse_page brewery rest
  end.

(** [while True] for one brewery, unrolled at most [fuel] times. *)
Fixpoint pages (fuel : nat) (brewery : string) : M state unit :=
  match fuel with
  | O => lift Unfinished
  | S fuel' =>
      ids <- gets last_parsed_ids ;;
      start <- lift (Dict.lookup ids brewery) ;;
      next_post_ids <- get_next_post_ids brewery start ;;
      match next_post_ids with
      | [] => ret tt
      | _ => parse_page brewery next_post_ids ;;; pages fuel' brewery
      end
  end.

Fixpoint all_breweries (fuel : nat) (breweries : list string) : M state unit :=
  match breweries with
  | [] => ret tt
  | brewery :: rest => pages fuel brewery ;;; all_breweries fuel rest
  end.

(** [append_to_csv]: the file is opened in mode "a" and the rows are
    written after the text it holds. *)
Definition append_to_csv (text : string) (rows : list row) : string :=
  text ++ String.concat "" (map csv_row rows).

(** [[row[0] for row in list(data)]] *)
Fixpoint first_cells (data : list (list string)) : result (list string) :=
  match data with
  | [] => Ok []
  | row :: rest =>
      (venue <- index row 0 ;;
       venues <- first_cells rest ;;
       Ok (venue :: venues))%res
  end.

(** The loop of [append_to_venues] over [new_venues]: the rows to append. *)
Fixpoint new_venue_rows (venue_list new_venue_names : list string)
         (new_venues : list (string * string)) : list (string * string) :=
  match new_venues with
  | [] => []
  | v :: rest =>
      if negb (existsb (String.eqb (fst v)) venue_list)
         && negb (existsb (String.eqb (fst v)) new_venue_names)
      then v :: new_venue_rows venue_list (new_venue_names ++ [fst v])%list rest
      else new_venue_rows venue_list new_venue_names rest
  end.

(** [[[row[4], row[8]] for row in rows if row[4] != '']] *)
Definition new_venues (rows : list row) : list (string * string) :=
  map (fun r => (venue r, url r))
      (filter (fun r => negb (String.eqb (venue r) "")) rows).

(** [append_to_venues]: the text of the venue file afterwards.  The file is
    read with [csv.reader], [next(data)] skips the header (StopIteration on
    a file without a row), and the new rows are written after the text the
    file holds. *)
Definition append_to_venues (venue_text : string) (rows : list row)
  : result string :=
  match csv_reader venue_text with
  | [] => Raise StopIteration
  | _ :: data =>
      (venue_list <- first_cells data ;;
       Ok (venue_text
           ++ String.concat ""
                (map (fun v => csv_line [fst v; snd v])
                     (new_venue_rows venue_list [] (new_venues rows)))))%res
  end.

Definition main (fuel : nat) (breweries : list string) : M state unit :=
  get_last_parsed_ids breweries ;;;
  all_breweries fuel breweries ;;;
  rows <- gets rows ;;
  match rows with
  | [] => ret tt
  | _ =>
      csv <- call DownloadAggregate (aggregate_csv w) ;;
      venues <- call DownloadVenueList (venue_list_csv w) ;;
      venues' <- lift (append_to_venues venues rows) ;;
      call (UploadAggregate (append_to_csv csv rows)) (fun _ => tt) ;;;
      call (UploadVenueList venues') (fun _ => tt) ;;;
      set_last_parsed_ids
  end.

Definition initial : state :=
  {| last_parsed_ids := []; rows := []; log := [] |}.

End Builtins.

End Parse.

(* ================================================================== *)
(** ** The two [HTMLParser] subclasses of get-untappd-venue-locations.py

    [HTMLParser.feed] cuts the page into start tags, end tags and text and
    calls the handler of each; tag and attribute names arrive in lower case,
    and an attribute written without a value has the value [None].  The
    scanners are modelled from the handlers on: a page is its token list. *)

Inductive token : Type :=
| StartTag (tag : string) (attributes : list (string * option string))
| EndTag (tag : string)
| Data (data : string).

(** The interface a subclass fills in. *)
Class HTMLParser (T : Type) : Type :=
  { handle_starttag : T -> string -> list (string * option string) -> result T;
    handle_endtag : T -> string -> result T;
    handle_data : T -> string -> result T }.

Definition handle {T : Type} `{HTMLParser T} (self : T) (tok : token) : result T :=
  match tok with
  | StartTag tag attributes => handle_starttag self tag attributes
  | EndTag tag => handle_endtag self tag
  | Data data => handle_data self data
  end.

(** [parser.feed(page)]: the handlers run in document order; an exception
    raised by a handler ends the scan. *)
Fixpoint feed {T : Type} `{HTMLParser T} (self : T) (page : list token) : result T :=
  match page with
  | [] => Ok self
  | tok :: rest =>
      match handle self tok with
      | Ok self' => feed self' rest
      | Raise e => Raise e
      | Unfinished => Unfinished
      end
  end.

(** [value == s] for an attribute value. *)
Definition value_is (value : option string) (s : string) : bool :=
  match value with
  | Some v => String.eqb v s
  | None => false
  end.

Module CheckinHTMLParser.

Record t : Type := { found_p : bool; url : list (option string) }.

Definition init : t := {| found_p := false; url := [] |}.

(** [for name, value in attributes: if name == 'class' and value == 'location'] *)
Definition class_location (attributes : list (string * option string)) : bool :=
  existsb (fun nv => String.eqb (fst nv) "class" && value_is (snd nv) "location")
          attributes.

(** [for name, value in attributes: if name == 'href'] : the first one *)
Definition first_href (attributes : list (string * option string))
  : option (option string) :=
  option_map snd (find (fun nv => String.eqb (fst nv) "href") attributes).

Definition starttag (self : t) (tag : string)
           (attributes : list (string * option string)) : result t :=
  if negb (String.eqb tag "a") && negb (String.eqb tag "p") then Ok self
  else if negb (found_p self) && String.eqb tag "p" && class_location attributes
  then Ok {| found_p := true; url := url self |}
  else if found_p self && String.eqb tag "a"
  then match first_href attributes with
       | Some value => Ok {| found_p := found_p self;
                             url := (url self ++ [value])%list |}
       | None => Ok self
       end
  else Ok self.

Definition endtag (self : t) (tag : string) : result t :=
  if String.eqb tag "p" then Ok {| found_p := false; url := url self |}
  else Ok self.

#[global] Instance parser : HTMLParser t :=
  { handle_starttag := starttag;
    handle_endtag := endtag;
    handle_data := fun self _ => Ok self }.

End CheckinHTMLParser.

Module VenueHTMLParser.

Record t : Type :=
  { found_div : bool; urls : list string; coords : list (option string) }.

Definition init : t := {| found_div := false; urls := []; coords := [] |}.

(** [dict(attributes)], read at [name]: the last pair with that name wins. *)
Definition attr (attributes : list (string * option string)) (name : string)
  : option (option string) :=
  option_map snd (find (fun nv => String.eqb (fst nv) name) (List.rev attributes)).

Definition has_attr (attributes : list (string * option string)) (name : string)
  : bool :=
  match attr attributes name with
  | Some _ => true
  | None => false
  end.

(** [attributes_dict[name]] *)
Definition attr_lookup (attributes : list (string * option string))
           (name : string) : result (option string) :=
  match attr attributes name with
  | Some value => Ok value
  | None => Raise KeyError
  end.

(** [attributes_dict[name] == s], for a name known to be present *)
Definition attr_is (attributes : list (string * option string))
           (name s : string) : bool :=
  match attr attributes name with
  | Some value => value_is value s
  | None => false
  end.

(** [attributes_dict['href'].split('?')[0]] *)
Definition href_without_query (attributes : list (string * option string))
  : result string :=
  (value <- attr_lookup attributes "href" ;;
   match value with
   | Some href => index (PyStr.split href "?") 0
   | None => Raise AttributeError
   end)%res.

Definition starttag (self : t) (tag : string)
           (attributes : list (string * option string)) : result t :=
  if negb (existsb (String.eqb tag) ["div"; "a"; "meta"]) then Ok self
  else if String.eqb tag "meta" && has_attr attributes "property"
  then
    if attr_is attributes "property" "place:location:latitude"
       || attr_is attributes "property" "place:location:longitude"
    then (content <- attr_lookup attributes "content" ;;
          Ok {| found_div := found_div self; urls := urls self;
                coords := (coords self ++ [content])%list |})%res
    else Ok self
  else if negb (has_attr attributes "class") then Ok self
  else if negb (found_div self) && String.eqb tag "div"
          && attr_is attributes "class" "venue-social"
  then Ok {| found_div := true; urls := urls self; coords := coords self |}
  else if found_div self && String.eqb tag "a"
          && attr_is attributes "class" "fs track-click"
  then (href <- href_without_query attributes ;;
        Ok {| found_div := found_div self; urls := (urls self ++ [href])%list;
              coords := coords self |})%res
  else Ok self.

Definition endtag (self : t) (tag : string) : result t :=
  if String.eqb tag "div"
  then Ok {| found_div := false; urls := urls self; coords := coords self |}
  else Ok self.

#[global] Instance parser : HTMLParser t :=
  { handle_starttag := starttag;
    handle_endtag := endtag;
    handle_data := fun self _ => Ok self }.

End VenueHTMLParser.

(* ================================================================== *)
(** ** The venue registry and the values of its cells

    A row of venue_locations.csv read from the file holds strings; during a
    run a row may also hold what an upstream answer contained: a number, a
    truth value, [None]. *)

Inductive pyval : Type :=
| PNone
| PStr (s : string)
| PNum (q : QArith_base.Q)
| PBool (b : bool).

(** [v == s] for a string literal [s] *)
Definition is_str (v : pyval) (s : string) : bool :=
  match v with
  | PStr t => String.eqb t s
  | _ => false
  end.

(** The truth value of [v] in a condition. *)
Definition truthy (v : pyval) : bool :=
  match v with
  | PNone => false
  | PStr s => negb (String.eqb s "")
  | PNum q => negb (QArith_base.Qeq_bool q (QArith_base.Qmake 0 1))
  | PBool b => b
  end.

(** [s in l] for a string literal [s] *)
Definition contains_str (l : list pyval) (s : string) : bool :=
  existsb (fun v => is_str v s) l.

(** [l[-5:]] *)
Definition last5 (l : list pyval) : list pyval := skipn (List.length l - 5) l.

(** [l[-5:] = new] *)
Definition set_last5 (l new : list pyval) : list pyval :=
  (firstn (List.length l - 5) l ++ new)%list.

(** [[s] * 5] *)
Definition five (s : string) : list pyval := repeat (PStr s) 5.

(** [sep.join(l)] on cells: a cell that is not a string raises. *)
Fixpoint strings_of (l : list pyval) : result (list string) :=
  match l with
  | [] => Ok []
  | PStr s :: rest =>
      match strings_of rest with
      | Ok ss => Ok (s :: ss)
      | Raise e => Raise e
      | Unfinished => Unfinished
      end
  | _ :: _ => Raise TypeError
  end.

Definition join_cells (sep : string) (l : list pyval) : result string :=
  match strings_of l with
  | Ok ss => Ok (PyStr.join sep ss)
  | Raise e => Raise e
  | Unfinished => Unfinished
  end.

(** [url.split('/')[-1]] on a cell *)
Definition id_of_url (url : pyval) : result string :=
  match url with
  | PStr s => Ok (PyStr.last_piece (PyStr.split s "/"))
  | _ => Raise AttributeError
  end.

Module Registry.

Definition t : Type := Dict.t (list pyval).

(** [{venue: data for venue, *data in venue_list}] *)
Fixpoint comprehension (venue_list : list (list string)) (d : t) : result t :=
  match venue_list with
  | [] => Ok d
  | [] :: _ => Raise ValueError
  | (venue :: data) :: rest => comprehension rest (Dict.set d venue (map PStr data))
  end.

(** [read_csv_to_dict], given the rows below the header. *)
Definition read_csv_to_dict (venue_list : list (list string)) : result t :=
  match venue_list with
  | [] => Ok []
  | [] :: _ => Ok []
  | _ => comprehension venue_list []
  end.

(** [write_dict_to_csv]: the rows written below the header. *)
Definition write_dict_to_csv (venue_dict : t) : list (list pyval) :=
  map (fun item => PStr (fst item) :: snd item) venue_dict.

End Registry.

(** *** What Foursquare answers

    An answer is decoded JSON.  The keys the scripts read outside a [try]
    block are fields that are always there; a key read under
    [except KeyError] or through [safe_dict] may be absent ([None]). *)

Module Foursquare.

Inductive address : Type :=
| AddressList (lines : list string)
| AddressText (text : string).

Record location : Type :=
  { formattedAddress : option address;
    lat : option pyval;
    lng : option pyval;
    country : option string }.

Record category : Type := { name : option string }.

(** An element of [data['response']['venues']] (search). *)
Record venue_item : Type :=
  { id : string;
    item_location : location;
    item_categories : list category }.

(** [data['response']['venue']] (details): [None] where a key on the path is
    absent. *)
Record venue : Type :=
  { venue_location : option location;
    venue_categories : option (list category) }.

End Foursquare.

(** What [requests.get] gives: a response, or an exception raised while the
    request was under way. *)
Inductive answer (A : Type) : Type :=
| Answered (status_code : Z) (body : A)
| Failed (e : exn).

Arguments Answered {A} status_code body.
Arguments Failed {A} e.

(* ================================================================== *)
(** ** get-untappd-venue-locations.py *)

Module Enrich.

(** What the run asks of the outside world. *)
Inductive event : Type :=
| GetPage (url : string)              (* requests.get of an Untappd page *)
| SearchVenues (query ll : string)    (* requests.get of venues/search *)
| SleepUntappd                        (* time.sleep(4 + random.uniform(-1, 1)) *)
| SleepFoursquare                     (* time.sleep(0.75) *)
| Clock                               (* time.time() *)
| Upload (table : list (list pyval)). (* backup_data *)

(** A log entry: the venue name the loop is at, and the request. *)
Definition entry : Type := (string * event)%type.

(** The outside world.  Each answer may depend on everything asked so far. *)
Record world : Type :=
  { untappd : list entry -> string -> answer (list token);
    foursquare : list entry -> string -> string
                 -> answer (list Foursquare.venue_item);
    sleep : list entry -> option exn;
    time : list entry -> QArith_base.Q }.

(** The variables of [main], the loop variable [venue[0]] and the log. *)
Record state : Type :=
  { venue_dict : Registry.t;
    foursquare_available : bool;
    time_at_last_backup : QArith_base.Q;
    current : string;
    log : list entry }.

Definition set_venue (name : string) (info : list pyval) (s : state) : state :=
  {| venue_dict := Dict.set (venue_dict s) name info;
     foursquare_available := foursquare_available s;
     time_at_last_backup := time_at_last_backup s;
     current := current s; log := log s |}.

Definition set_available (b : bool) (s : state) : state :=
  {| venue_dict := venue_dict s; foursquare_available := b;
     time_at_last_backup := time_at_last_backup s;
     current := current s; log := log s |}.

Definition set_time (t : QArith_base.Q) (s : state) : state :=
  {| venue_dict := venue_dict s;
     foursquare_available := foursquare_available s;
     time_at_last_backup := t; current := current s; log := log s |}.

Definition set_current (name : string) (s : state) : state :=
  {| venue_dict := venue_dict s;
     foursquare_available := foursquare_available s;
     time_at_last_backup := time_at_last_backup s;
     current := name; log := log s |}.

Definition logged (name : string) (ev : event) (s : state) : state :=
  {| venue_dict := venue_dict s;
     foursquare_available := foursquare_available s;
     time_at_last_backup := time_at_last_backup s;
     current := current s; log := (log s ++ [(name, ev)])%list |}.

(** Log a request; the value is the log the world answers from. *)
Definition emit (ev : event) : M state (list entry) :=
  fun s => (Ok (log s), logged (current s) ev s).

Section Run.

Variable w : world.

Local Open Scope prog_scope.

Definition requests_get (url : string) : M state (Z * list token) :=
  asked <- emit (GetPage url) ;;
  match untappd w asked url with
  | Answered status_code text => ret (status_code, text)
  | Failed e => lift (Raise e)
  end.

Definition time_sleep (ev : event) : M state unit :=
  asked <- emit ev ;;
  match sleep w asked with
  | Some e => lift (Raise e)
  | None => ret tt
  end.

Definition time_time : M state QArith_base.Q :=
  asked <- emit Clock ;;
  ret (time w asked).

Definition of_attr (value : option string) : pyval :=
  match value with
  | Some s => PStr s
  | None => PNone
  end.

(** ['https://untappd.com' + parser.url[0]] *)
Definition venue_page_url (href : option string) : result string :=
  match href with
  | Some path => Ok ("https://untappd.com" ++ path)%string
  | None => Raise TypeError
  end.

Definition search_untappd (checkin_url : string) : M state (list pyval) :=
  response <- requests_get checkin_url ;;
  if (fst response =? 404)%Z then ret (five "Missing")
  else if negb (fst response =? 200)%Z then ret (five "")
  else
    parser <- lift (feed CheckinHTMLParser.init (snd response)) ;;
    match CheckinHTMLParser.url parser with
    | [] => ret (five "Missing")
    | href :: _ =>
        untappd_venue_url <- lift (venue_page_url href) ;;
        response <- requests_get untappd_venue_url ;;
        if (fst response =? 404)%Z then ret (five "Missing")
        else if negb (fst response =? 200)%Z then ret (five "")
        else
          parser <- lift (feed VenueHTMLParser.init (snd response)) ;;
          match VenueHTMLParser.urls parser, VenueHTMLParser.coords parser with
          | foursquare_url :: _, latitude :: _ =>
              longitude <- lift (index (VenueHTMLParser.coords parser) 1) ;;
              ret [PStr untappd_venue_url; PStr foursquare_url; PStr "";
                   of_attr latitude; of_attr longitude]
          | _, _ => ret (five "Missing")
          end
    end.

(** [', '.join(str(a) for a in venue['formattedAddress'])]: a string is
    iterated character by character. *)
Definition address_text (a : Foursquare.address) : string :=
  match a with
  | Foursquare.AddressList lines => PyStr.join ", " lines
  | Foursquare.AddressText text => PyStr.join ", " (PyStr.chars text)
  end.

(** [[category['name'] for category in categories]]; [None] is a KeyError. *)
Fixpoint category_names (categories : list Foursquare.category)
  : option (list string) :=
  match categories with
  | [] => Some []
  | c :: rest =>
      match Foursquare.name c, category_names rest with
      | Some n, Some ns => Some (n :: ns)
      | _, _ => None
      end
  end.

(** The body of the [try]: the row, or [None] when a KeyError was caught. *)
Definition extract (venue_item : Foursquare.venue_item) : option (list pyval) :=
  let venue := Foursquare.item_location venue_item in
  let categories := Foursquare.item_categories venue_item in
  match Foursquare.formattedAddress venue, Foursquare.lat venue,
        Foursquare.lng venue with
  | Some a, Some la, Some ln =>
      match (match categories with
             | [] => Some "Uncategorized"
             | _ => option_map (PyStr.join ", ") (category_names categories)
             end), Foursquare.country venue with
      | Some cats, Some c =>
          Some [PStr (address_text a); la; ln; PStr cats;
                PBool (String.eqb c "United States")]
      | _, _ => None
      end
  | _, _, _ => None
  end.

(** [for venue_item in venue_list]: the row of the first item that carries
    the wanted id and every key. *)
Fixpoint first_match (venue_id : string)
         (venue_list : list Foursquare.venue_item) : option (list pyval) :=
  match venue_list with
  | [] => None
  | venue_item :: rest =>
      if negb (String.eqb (Foursquare.id venue_item) venue_id)
      then first_match venue_id rest
      else match extract venue_item with
           | Some row => Some row
           | None => first_match venue_id rest
           end
  end.

Definition search_foursquare (venue : string) (venue_info : list pyval)
  : M state (list pyval) :=
  venue_url <- lift (index venue_info 1) ;;
  latitude <- lift (index venue_info 3) ;;
  longitude <- lift (index venue_info 4) ;;
  if is_str venue_url "Missing" then ret (five "Missing")
  else
    venue_id <- lift (id_of_url venue_url) ;;
    ll <- lift (join_cells "," [latitude; longitude]) ;;
    asked <- emit (SearchVenues venue ll) ;;
    match foursquare w asked venue ll with
    | Failed e => lift (Raise e)
    | Answered status_code venue_list =>
        if negb (status_code =? 200)%Z
        then ret [PStr ""; latitude; longitude; PStr ""; PStr ""]
        else match first_match venue_id venue_list with
             | Some row => ret row
             | None => ret [PStr "Missing"; latitude; longitude;
                            PStr "Missing"; PStr "Missing"]
             end
    end.

Definition backup_data : M state unit :=
  d <- gets venue_dict ;;
  _ <- emit (Upload (Registry.write_dict_to_csv d)) ;;
  ret tt.

(** How an iteration of [for venue in venue_list] ends. *)
Inductive flow : Type := Next | Break.

(** [venue[0] not in venue_dict or not venue_dict[venue[0]][0]] *)
Definition lacks_untappd (d : Registry.t) (name : string) : result bool :=
  match Dict.get d name with
  | None => Ok true
  | Some info => (u <- index info 0 ;; Ok (negb (truthy u)))%res
  end.

(** [foursquare_available and venue_dict[venue[0]][1] and '' in venue_dict[venue[0]]] *)
Definition wants_foursquare (available : bool) (d : Registry.t) (name : string)
  : result bool :=
  if available
  then (info <- Dict.lookup d name ;;
        f <- index info 1 ;;
        Ok (truthy f && contains_str info ""))%res
  else Ok false.

(** The second half of the loop body, from the Foursquare test on. *)
Definition foursquare_and_backup (name : string) (already_slept : bool)
  : M state flow :=
  available <- gets foursquare_available ;;
  d <- gets venue_dict ;;
  wanted <- lift (wants_foursquare available d name) ;;
  (if wanted
   then
     info <- lift (Dict.lookup d name) ;;
     found <- search_foursquare name info ;;
     modify (set_venue name (set_last5 info found)) ;;;
     (if contains_str (last5 (set_last5 info found)) ""
      then modify (set_available false) else ret tt) ;;;
     (if already_slept then ret tt else time_sleep SleepFoursquare)
   else ret tt) ;;;
  now <- time_time ;;
  last <- gets time_at_last_backup ;;
  (if QArith_base.Qle_bool (QArith_base.Qmake 885 1) (QArith_base.Qminus now last)
   then backup_data ;;; t <- time_time ;; modify (set_time t)
   else ret tt) ;;;
  ret Next.

(** The loop body for [venue = [name, checkin_url]]. *)
Definition iteration (venue : string * string) : M state flow :=
  modify (set_current (fst venue)) ;;;
  d <- gets venue_dict ;;
  lacking <- lift (lacks_untappd d (fst venue)) ;;
  if lacking
  then
    found <- search_untappd (snd venue) ;;
    modify (set_venue (fst venue) (found ++ [PStr ""; PStr ""])%list) ;;;
    first <- lift (index (found ++ [PStr ""; PStr ""])%list 0) ;;
    if negb (truthy first) then ret Break
    else time_sleep SleepUntappd ;;; foursquare_and_backup (fst venue) true
  else foursquare_and_backup (fst venue) false.

Fixpoint for_venues (venue_list : list (string * string)) : M state unit :=
  match venue_list with
  | [] => ret tt
  | venue :: rest =>
      f <- iteration venue ;;
      match f with
      | Break => ret tt
      | Next => for_venues rest
      end
  end.

(** [try: ... except KeyboardInterrupt: pass] *)
Definition except_KeyboardInterrupt (body : M state unit) : M state unit :=
  fun s =>
    match body s with
    | (Raise KeyboardInterrupt, s') => (Ok tt, s')
    | r => r
    end.

(** [main] from [foursquare_available = True] on, started in a state that
    holds the dictionary read from venue_locations.csv: the two assignments
    before the [try], the guarded loop, the final [backup_data]. *)
Definition prelude : M state unit :=
  modify (set_available true) ;;;
  t <- time_time ;;
  modify (set_time t).

Definition main (venue_list : list (string * string)) : M state unit :=
  prelude ;;;
  except_KeyboardInterrupt (for_venues venue_list) ;;;
  backup_data.

End Run.

Definition start (venue_dict : Registry.t) : state :=
  {| venue_dict := venue_dict; foursquare_available := true;
     time_at_last_backup := QArith_base.Qmake 0 1; current := ""; log := [] |}.

(** A request that goes upstream, to Untappd or to Foursquare. *)
Definition upstream (ev : event) : bool :=
  match ev with
  | GetPage _ | SearchVenues _ _ => true
  | _ => false
  end.

Definition lookup_call (ev : event) : bool :=
  match ev with
  | SearchVenues _ _ => true
  | _ => false
  end.

End Enrich.

(* ================================================================== *)
(** ** clean-and-backup-untappd-data.py *)

Module Premium.

Inductive event : Type :=
| VenueDetails (venue_id : string)    (* requests.get of venues/<venue_id> *)
| Upload (table : list (list pyval))  (* upload_venue_locations *)
| CreateBackup.                       (* create_backup *)

Definition entry : Type := (string * event)%type.

Record world : Type :=
  { foursquare : list entry -> string -> answer Foursquare.venue }.

Record state : Type :=
  { venue_dict : Registry.t;
    current : string;
    log : list entry }.

Definition set_venue (name : string) (info : list pyval) (s : state) : state :=
  {| venue_dict := Dict.set (venue_dict s) name info;
     current := current s; log := log s |}.

Definition set_current (name : string) (s : state) : state :=
  {| venue_dict := venue_dict s; current := name; log := log s |}.

Definition logged (name : string) (ev : event) (s : state) : state :=
  {| venue_dict := venue_dict s; current := current s;
     log := (log s ++ [(name, ev)])%list |}.

Definition emit (ev : event) : M state (list entry) :=
  fun s => (Ok (log s), logged (current s) ev s).

(** [safe_dict(dict_name, key)] *)
Definition safe_dict (value : option pyval) : pyval :=
  match value with
  | Some v => v
  | None => PStr "Unavailable"
  end.

(** The address column: [safe_dict], a value that is no list wrapped in one,
    then the join. *)
Definition address_text (a : option Foursquare.address) : string :=
  match a with
  | Some (Foursquare.AddressList lines) => PyStr.join ", " lines
  | Some (Foursquare.AddressText text) => text
  | None => "Unavailable"
  end.

Definition category_name (c : Foursquare.category) : string :=
  match Foursquare.name c with
  | Some n => n
  | None => "Unavailable"
  end.

Definition categories_text (categories : list Foursquare.category) : string :=
  match categories with
  | [] => "Uncategorized"
  | _ => PyStr.join ", " (map category_name categories)
  end.

Definition in_us (country : option string) : pyval :=
  match country with
  | None => PStr "Unavailable"
  | Some c => if String.eqb c "Unavailable" then PStr "Unavailable"
              else PBool (String.eqb c "United States")
  end.

(** The row built after the [try] block. *)
Definition details_row (venue : Foursquare.location)
           (categories : list Foursquare.category) : list pyval :=
  [PStr (address_text (Foursquare.formattedAddress venue));
   safe_dict (Foursquare.lat venue);
   safe_dict (Foursquare.lng venue);
   PStr (categories_text categories);
   in_us (Foursquare.country venue)].

Section Run.

Variable w : world.

Local Open Scope prog_scope.

Definition search_foursquare (foursquare_url : pyval) (coords : list pyval)
  : M state (list pyval) :=
  venue_id <- lift (id_of_url foursquare_url) ;;
  asked <- emit (VenueDetails venue_id) ;;
  match foursquare w asked venue_id with
  | Failed e => lift (Raise e)
  | Answered status_code data =>
      if (status_code =? 400)%Z
      then ret (PStr "Unavailable" :: coords
                  ++ [PStr "Unavailable"; PStr "Unavailable"])%list
      else if negb (status_code =? 200)%Z
      then ret (PStr "Missing" :: coords ++ [PStr "Missing"; PStr "Missing"])%list
      else match Foursquare.venue_location data,
                 Foursquare.venue_categories data with
           | Some venue, Some categories => ret (details_row venue categories)
           | _, _ => ret (PStr "Unavailable" :: coords
                            ++ [PStr "Unavailable"; PStr "Unavailable"])%list
           end
  end.

Inductive flow : Type := Next | Break.

(** The loop body for the key [venue]; [venue_data] is the list the
    dictionary holds under that key, the same object the slice assignment
    writes into. *)
Definition iteration (venue : string) : M state flow :=
  modify (set_current venue) ;;;
  d <- gets venue_dict ;;
  venue_data <- lift (Dict.lookup d venue) ;;
  foursquare_url <- lift (index venue_data 1) ;;
  latitude <- lift (index venue_data 3) ;;
  longitude <- lift (index venue_data 4) ;;
  if negb (contains_str venue_data "Missing") || is_str foursquare_url "Missing"
  then ret Next
  else
    found <- search_foursquare foursquare_url [latitude; longitude] ;;
    modify (set_venue venue (set_last5 venue_data found)) ;;;
    third <- lift (index (set_last5 venue_data found) 3) ;;
    if is_str third "Missing" then ret Break else ret Next.

Fixpoint for_items (venues : list string) : M state unit :=
  match venues with
  | [] => ret tt
  | venue :: rest =>
      f <- iteration venue ;;
      match f with
      | Break => ret tt
      | Next => for_items rest
      end
  end.

(** [main], started in a state that holds the dictionary read from
    venue_locations.csv; the loop runs over the keys of that dictionary. *)
Definition main : M state unit :=
  d <- gets venue_dict ;;
  for_items (Dict.keys d) ;;;
  d <- gets venue_dict ;;
  _ <- emit (Upload (Registry.write_dict_to_csv d)) ;;
  _ <- emit CreateBackup ;;
  ret tt.

End Run.

Definition start (venue_dict : Registry.t) : state :=
  {| venue_dict := venue_dict; current := ""; log := [] |}.

Definition lookup_call (ev : event) : bool :=
  match ev with
  | VenueDetails _ => true
  | _ => false
  end.

End Premium.

(* ================================================================== *)
(** * Statements of the specification, for comparison with the code *)

(** The specification's three example titles, and what it says they parse to. *)
Definition spec_title_examples : Prop :=
  Parse.parse_title "alice is drinking Victory at Sea Stout at The Brewery"
    = Ok ("Victory at Sea Stout", "The Brewery")
  /\ Parse.parse_title "bob is drinking IPA at Taproom" = Ok ("IPA", "Taproom")
  /\ (exists beverage,
        Parse.parse_title "carol is drinking Pilsner" = Ok (beverage, "")).

(** *** The nested-link rule

    [container] is the tag of the qualifying container, [qualifies]
    recognises its attributes, [link] gives what a link token emits. *)
Section NestedLinkRule.

Variable L : Type.
Variable container : string.
Variable qualifies : list (string * option string) -> bool.
Variable link : string -> list (string * option string) -> option L.







End NestedLinkRule.





(** *** Example feeds *)

(** [int] on a string of decimal digits; ValueError otherwise. *)
Fixpoint digits_value (acc : Z) (s : string) : option Z :=
  match s with
  | EmptyString => Some acc
  | String c s' =>
      let n := nat_of_ascii c in
      if (48 <=? n)%nat && (n <=? 57)%nat
      then digits_value (10 * acc + Z.of_nat (n - 48)) s'
      else None
  end.

Definition decimal (s : string) : result Z :=
  match s with
  | EmptyString => Raise ValueError
  | _ => match digits_value 0 s with
         | Some z => Ok z
         | None => Raise ValueError
         end
  end.

Definition store_up : list Update.event -> option exn := fun _ => None.

(** Check-in 7 of brewery 68, and check-in 8 delivered without its
    [title_detail]. *)
Definition checkin_7 : Update.post :=
  {| Update.id := Some "https://untappd.com/user/a/checkin/7";
     Update.base := Some "https://untappd.com/rss/brewery/68" |}.


Definition checkin_9 : Update.post :=
  {| Update.id := Some "https://untappd.com/user/c/checkin/9";
     Update.base := Some "https://untappd.com/rss/brewery/68" |}.

(** *** The parse cursor *)

Definition cursor_write (ev : Parse.event) : bool :=
  match ev with
  | Parse.PutLastParsed _ => true
  | _ => false
  end.

(** The keys the listings of a log returned, in order; each listing was
    answered from the calls completed before it. *)
Fixpoint listed_from (w : Parse.world) (pre log : list Parse.event)
  : list string :=
  match log with
  | [] => []
  | ev :: rest =>
      (match ev with
       | Parse.ListObjects prefix start => Parse.contents w pre prefix start
       | _ => []
       end ++ listed_from w (pre ++ [ev]) rest)%list
  end.

Definition listed (w : Parse.world) (log : list Parse.event) : list string :=
  listed_from w [] log.

(** [row] is the row of the post stored under [key], as a call of the log
    fetched it and [parse_post] parsed it. *)
Definition fetched_row (py_int : string -> result Z)
           (py_float : string -> result QArith_base.Q)
           (w : Parse.world) (log : list Parse.event)
           (key : string) (row : Parse.row) : Prop :=
  exists l l',
    log = (l ++ Parse.GetObject key :: l')%list
    /\ Parse.parse_row py_int py_float key (Parse.object_body w l key)
       = Ok row.

(** Every id the cursor holds is the empty default, an id that
    last_parsed.json already held, or the id at the end of a key whose post
    was fetched and parsed in this run, its row being among the rows. *)
Definition cursor_backed (py_int : string -> result Z)
           (py_float : string -> result QArith_base.Q)
           (w : Parse.world) (json : Dict.t string)
           (log : list Parse.event)
           (ids : Dict.t string) (rows : list Parse.row) : Prop :=
  forall brewery i,
    Dict.get ids brewery = Some i ->
    i = ""
    \/ Dict.get json brewery = Some i
    \/ exists key row,
        fetched_row py_int py_float w log key row
        /\ In row rows
        /\ i = PyStr.last_piece (PyStr.split key "-")
        /\ py_int i = Ok (Parse.guid row).

(** No cursor write so far. *)
Definition no_cursor_write (s : Parse.state) : Prop :=
  forall ev, In ev (Parse.log s) -> cursor_write ev = false.

(** What holds while the posts are parsed: no cursor write so far, the
    cursor is backed by the rows, and the rows are the rows of the keys
    listed so far, in order, but for the keys [todo] of the page under
    way. *)
Definition parsing (py_int : string -> result Z)
           (py_float : string -> result QArith_base.Q)
           (w : Parse.world) (json : Dict.t string)
           (todo : list string) (s : Parse.state) : Prop :=
  no_cursor_write s
  /\ cursor_backed py_int py_float w json (Parse.log s)
                   (Parse.last_parsed_ids s) (Parse.rows s)
  /\ exists done,
      listed w (Parse.log s) = (done ++ todo)%list
      /\ Forall2 (fetched_row py_int py_float w (Parse.log s))
                 done (Parse.rows s).


(** An instance of the [csv] functions for cells that hold no comma, quote
    or line break: lines end with a line feed, cells are set apart by
    commas.  The example row text leaves the two numeric columns out. *)
Definition line_feed : string := String (ascii_of_nat 10) "".




(** A bucket with one stored post of brewery 68 after the cursor 100. *)
Definition one_new_post : Parse.world :=
  {| Parse.fault := fun _ => None;
     Parse.last_parsed_json := fun _ => [("68", "100")];
     Parse.contents := fun _ _ start =>
       if String.eqb start "68/68-100" then ["68/68-101"] else [];
     Parse.object_body := fun _ _ =>
       {| Parse.link := "https://untappd.com/user/alice/checkin/101";
          Parse.title := "alice is drinking a Sculpin at The Pub";
          Parse.summary := "Nice";
          Parse.published := "Mon, 03 Jun 2019 01:00:00 +0000" |};
     Parse.aggregate_csv := fun _ => "";
     Parse.venue_list_csv := fun _ => "venue,url" ++ line_feed |}.

Definition int_101 (text : string) : result Z :=
  if String.eqb text "101" then Ok 101%Z else Raise ValueError.



(** *** Failure outcomes of a lookup call

    An answer of the lookup API that is a failure, with the sentinel the
    script writes for it. *)




(** A world in which Foursquare answers every request with status 500. *)
Definition search_down : Enrich.world :=
  {| Enrich.untappd := fun _ _ => Answered 500 [];
     Enrich.foursquare := fun _ _ _ => Answered 500 [];
     Enrich.sleep := fun _ => None;
     Enrich.time := fun _ => QArith_base.Qmake 0 1 |}.

Definition details_down : Premium.world :=
  {| Premium.foursquare := fun _ _ =>
       Answered 500 {| Foursquare.venue_location := None;
                       Foursquare.venue_categories := None |} |}.

(** *** What an iteration of the enrichment loop may change

    One assignment or request made while the loop is at the venue [n].
    With [quiet] set, writes to the registry and to the breaker flag are
    left out, and so is every request that goes upstream. *)
Inductive enrich_touch (n : string) (quiet : bool)
  : Enrich.state -> Enrich.state -> Prop :=
| touch_log (s : Enrich.state) (ev : Enrich.event) :
    (quiet = true -> Enrich.upstream ev = false) ->
    enrich_touch n quiet s (Enrich.logged n ev s)
| touch_time (s : Enrich.state) (t : QArith_base.Q) :
    enrich_touch n quiet s (Enrich.set_time t s)
| touch_current (s : Enrich.state) :
    enrich_touch n quiet s (Enrich.set_current n s)
| touch_available (s : Enrich.state) (b : bool) :
    quiet = false ->
    enrich_touch n quiet s (Enrich.set_available b s)
| touch_venue (s : Enrich.state) (info : list pyval) :
    quiet = false ->
    enrich_touch n quiet s (Enrich.set_venue n info s).

Definition enrich_closed (n : string) (quiet : bool)
           (P : Enrich.state -> Prop) : Prop :=
  forall s s', P s -> enrich_touch n quiet s s' -> P s'.

Definition at_venue (n : string) (P : Enrich.state -> Prop)
           (s : Enrich.state) : Prop :=
  P s /\ Enrich.current s = n.

(** A record the enrichment loop does not select: its Untappd url is there
    and no cell is the empty string. *)
Definition enrich_settled (info : list pyval) : bool :=
  match info with
  | untappd_url :: _ => truthy untappd_url && negb (contains_str info "")
  | [] => false
  end.

(** A record the premium pass does not select: no cell is 'Missing', or the
    Foursquare url is. *)
Definition premium_settled (info : list pyval) : bool :=
  negb (contains_str info "Missing")
  || match nth_error info 1 with
     | Some foursquare_url => is_str foursquare_url "Missing"
     | None => false
     end.

(** Changes every invariant of a run below survives: the breaker flag, the
    time of the last save, and a logged request that does not go upstream. *)
Definition enrich_harmless (P : Enrich.state -> Prop) : Prop :=
  forall s, P s ->
            (forall b, P (Enrich.set_available b s))
            /\ (forall t, P (Enrich.set_time t s))
            /\ (forall l ev, Enrich.upstream ev = false ->
                             P (Enrich.logged l ev s)).

(** The record of [name] is [info], and no request went upstream while the
    loop was at [name]. *)
Definition enrich_untouched (name : string) (info : list pyval)
           (s : Enrich.state) : Prop :=
  Dict.get (Enrich.venue_dict s) name = Some info
  /\ forall ev, In (name, ev) (Enrich.log s) -> Enrich.upstream ev = false.

(** The registry is [d], and no request went upstream at all. *)
Definition enrich_idle (d : Registry.t) (s : Enrich.state) : Prop :=
  Enrich.venue_dict s = d
  /\ forall e, In e (Enrich.log s) -> Enrich.upstream (snd e) = false.

(** The state in which the loop of [main] starts. *)
Definition enrich_loop_start (w : Enrich.world) (s : Enrich.state)
  : Enrich.state :=
  Enrich.set_time (Enrich.time w (Enrich.log s))
    (Enrich.logged (Enrich.current s) Enrich.Clock
       (Enrich.set_available true s)).

(** The state after the final [backup_data]. *)
Definition enrich_saved (s : Enrich.state) : Enrich.state :=
  Enrich.logged (Enrich.current s)
    (Enrich.Upload (Registry.write_dict_to_csv (Enrich.venue_dict s))) s.

(** The same for the premium pass: the record of [name] is [info], and no
    details request was sent while the loop was at [name]. *)
Definition premium_untouched (name : string) (info : list pyval)
           (s : Premium.state) : Prop :=
  Dict.get (Premium.venue_dict s) name = Some info
  /\ forall ev, In (name, ev) (Premium.log s) -> Premium.lookup_call ev = false.

Definition premium_at (n : string) (P : Premium.state -> Prop)
           (s : Premium.state) : Prop :=
  P s /\ Premium.current s = n.

(** *** Example registries and worlds *)

(** A venue after a successful scrape: both urls and the scraped
    coordinates are there, the three lookup columns are still empty. *)
Definition pub_scraped : list pyval :=
  [PStr "https://untappd.com/v/the-pub/1"; PStr "https://foursquare.com/v/4b5";
   PStr ""; PStr "40.1"; PStr "-75.2"; PStr ""; PStr ""].

(** The same venue with every column filled, as read back from the file. *)
Definition pub_resolved : list pyval :=
  [PStr "https://untappd.com/v/the-pub/1"; PStr "https://foursquare.com/v/4b5";
   PStr "1 Main St, Philadelphia"; PStr "40.1234"; PStr "-75.2345";
   PStr "Bar"; PStr "True"].

(** The same venue after a search that found no candidate. *)
Definition pub_missing : list pyval :=
  [PStr "https://untappd.com/v/the-pub/1"; PStr "https://foursquare.com/v/4b5";
   PStr "Missing"; PStr "40.1"; PStr "-75.2"; PStr "Missing"; PStr "Missing"].

(** A venue whose checkin was deleted: 'Missing' in every column. *)
Definition pub_deleted : list pyval := repeat (PStr "Missing") 7.

Definition pub_item : Foursquare.venue_item :=
  {| Foursquare.id := "4b5";
     Foursquare.item_location :=
       {| Foursquare.formattedAddress :=
            Some (Foursquare.AddressList ["1 Main St"; "Philadelphia"]);
          Foursquare.lat := Some (PNum (QArith_base.Qmake 401234 10000));
          Foursquare.lng := Some (PNum (QArith_base.Qmake (-752345) 10000));
          Foursquare.country := Some "United States" |};
     Foursquare.item_categories := [ {| Foursquare.name := Some "Bar" |} ] |}.

(** Foursquare's search knows the venue. *)
Definition search_finds_pub : Enrich.world :=
  {| Enrich.untappd := fun _ _ => Answered 500 [];
     Enrich.foursquare := fun _ _ _ => Answered 200 [pub_item];
     Enrich.sleep := fun _ => None;
     Enrich.time := fun _ => QArith_base.Qmake 0 1 |}.

(** Foursquare's search answers, with no candidate. *)
Definition search_finds_nothing : Enrich.world :=
  {| Enrich.untappd := fun _ _ => Answered 500 [];
     Enrich.foursquare := fun _ _ _ => Answered 200 [];
     Enrich.sleep := fun _ => None;
     Enrich.time := fun _ => QArith_base.Qmake 0 1 |}.

(** Foursquare's details answer with an address and no coordinates. *)
Definition details_without_coordinates : Premium.world :=
  {| Premium.foursquare := fun _ _ =>
       Answered 200
         {| Foursquare.venue_location :=
              Some {| Foursquare.formattedAddress :=
                        Some (Foursquare.AddressText "1 Main St");
                      Foursquare.lat := None;
                      Foursquare.lng := None;
                      Foursquare.country := Some "United States" |};
            Foursquare.venue_categories := Some [] |} |}.

(** Two venues the premium pass selects. *)
Definition two_missing : Registry.t :=
  [ ("The Pub", pub_missing);
    ("Taproom",
     [PStr "https://untappd.com/v/taproom/2"; PStr "https://foursquare.com/v/5c6";
      PStr "Missing"; PStr "39.9"; PStr "-75.1"; PStr "Missing"; PStr "Missing"]) ].


(** The registry file with the scraped venue, a venue list with a second
    venue, and a world in which Foursquare knows the first venue and the
    operator stops the run while the page of the second is fetched. *)
Definition pub_file : list (list string) :=
  [ ["The Pub"; "https://untappd.com/v/the-pub/1";
     "https://foursquare.com/v/4b5"; ""; "40.1"; "-75.2"; ""; ""] ].

Definition pub_then_taproom : list (string * string) :=
  [ ("The Pub", "https://untappd.com/user/a/checkin/1");
    ("Taproom", "https://untappd.com/user/b/checkin/2") ].

Definition stopped_at_untappd : Enrich.world :=
  {| Enrich.untappd := fun _ _ => Failed KeyboardInterrupt;
     Enrich.foursquare := fun _ _ _ => Answered 200 [pub_item];
     Enrich.sleep := fun _ => None;
     Enrich.time := fun _ => QArith_base.Qmake 0 1 |}.

(** The loop of that run, evaluated. *)
Definition stopped_loop : result unit * Enrich.state :=
  Eval vm_compute in
    Enrich.for_venues stopped_at_untappd pub_then_taproom
      (enrich_loop_start stopped_at_untappd
         (Enrich.start [("The Pub", pub_scraped)])).

(** The unique-key property of the registry. *)
Definition unique_keys (s : Enrich.state) : Prop :=
  NoDup (Dict.keys (Enrich.venue_dict s)).

(* ================================================================== *)
(** * Definitions for further properties of the code *)

(** *** Example files of venue rows *)

(** Two venues, one resolved and one still to be looked up. *)
Definition pub_then_taproom_rows : list (list string) :=
  [ ["The Pub"; "https://untappd.com/venue/1"; "https://foursquare.com/v/4b";
     "1 Main St"; "32.7"; "-117.1"; "Pub"; "True"];
    ["Taproom"; "https://untappd.com/venue/2"; "https://foursquare.com/v/4c";
     ""; "32.8"; "-117.2"; ""; ""] ].

(** The same venue name on two rows. *)
Definition pub_listed_twice : list (list string) :=
  [ ["The Pub"; "https://untappd.com/venue/1"; "https://foursquare.com/v/4b";
     ""; "32.7"; "-117.1"; ""; ""];
    ["The Pub"; "https://untappd.com/venue/1"; "https://foursquare.com/v/4b";
     "1 Main St"; "32.7"; "-117.1"; "Pub"; "True"] ].

(** *** The breaker of the enrichment loop *)

(** The entry [e], logged after the entries [asked], is a search that the
    lookup API answered with a status other than 200. *)
Definition search_rejected (w : Enrich.world) (asked : list Enrich.entry)
           (e : Enrich.entry) : bool :=
  match snd e with
  | Enrich.SearchVenues query ll =>
      match Enrich.foursquare w asked query ll with
      | Answered status_code _ => negb (status_code =? 200)%Z
      | Failed _ => false
      end
  | _ => false
  end.

(** No entry after a rejected search is a search. *)
Definition breaker_held (w : Enrich.world) (log : list Enrich.entry) : Prop :=
  forall asked e later,
    log = (asked ++ e :: later)%list ->
    search_rejected w asked e = true ->
    existsb (fun e' => Enrich.lookup_call (snd e')) later = false.

(** No search was rejected. *)
Definition no_rejection (w : Enrich.world) (log : list Enrich.entry) : Prop :=
  forall asked e later,
    log = (asked ++ e :: later)%list -> search_rejected w asked e = false.

(** What the loop keeps: the breaker held so far, and the flag is still set
    only if no search was rejected. *)
Definition breaker_invariant (w : Enrich.world) (s : Enrich.state) : Prop :=
  breaker_held w (Enrich.log s)
  /\ (Enrich.foursquare_available s = true -> no_rejection w (Enrich.log s)).

(** What [search_foursquare] leaves: the invariant, or a rejected search as
    the last entry and a result that holds the empty string. *)
Definition after_search (w : Enrich.world) (found : list pyval)
           (s : Enrich.state) : Prop :=
  breaker_invariant w s
  \/ (breaker_held w (Enrich.log s)
      /\ List.length found = 5
      /\ contains_str found "" = true).

(** Two scraped venues, and the run over them while the lookup API answers
    every search with status 500. *)
Definition two_scraped : Registry.t :=
  [ ("The Pub", pub_scraped);
    ("Taproom",
     [PStr "https://untappd.com/v/taproom/2"; PStr "https://foursquare.com/v/5c6";
      PStr ""; PStr "39.9"; PStr "-75.1"; PStr ""; PStr ""]) ].

Definition rejected_run : result unit * Enrich.state :=
  Eval vm_compute in
    Enrich.main search_down pub_then_taproom (Enrich.start two_scraped).

(** *** Requests that went upstream *)

(** The entries of a log that are requests to Untappd or Foursquare. *)
Definition upstream_entries (log : list Enrich.entry) : list Enrich.entry :=
  filter (fun e => Enrich.upstream (snd e)) log.

(** The record of [name] is 'Missing' in every column, and the requests
    that went upstream are [sent]. *)
Definition settled_as_missing (name : string) (sent : list Enrich.entry)
           (s : Enrich.state) : Prop :=
  Dict.get (Enrich.venue_dict s) name = Some (repeat (PStr "Missing") 7)
  /\ upstream_entries (Enrich.log s) = sent.

(** Untappd answers every page request with 404. *)
Definition checkin_deleted : Enrich.world :=
  {| Enrich.untappd := fun _ _ => Answered 404 [];
     Enrich.foursquare := fun _ _ _ => Answered 200 [pub_item];
     Enrich.sleep := fun _ => None;
     Enrich.time := fun _ => QArith_base.Qmake 0 1 |}.

(** *** The venues of the registry *)

(** The registry of [s] holds the venues of [d], in their order, followed by
    venues named in [names]. *)
Definition registry_extends (d : Registry.t) (names : list string)
           (s : Enrich.state) : Prop :=
  exists added,
    Dict.keys (Enrich.venue_dict s) = (Dict.keys d ++ added)%list
    /\ forall n, In n added -> In n names.

(** The registry of [s] holds the venues of [d], in their order. *)
Definition same_venues (d : Registry.t) (s : Premium.state) : Prop :=
  Dict.keys (Premium.venue_dict s) = Dict.keys d.

(** The same, while the loop is at a venue that has a record. *)
Definition same_venues_at (d : Registry.t) (venue : string)
           (s : Premium.state) : Prop :=
  same_venues d s /\ Dict.mem (Premium.venue_dict s) venue = true.

(** *** A parsing run that finds nothing new *)



(** *** The coordinate tags of a venue page *)

(** A [meta] tag whose [property] names the latitude or the longitude. *)
Definition coordinate_tag (tag : string)
           (attributes : list (string * option string)) : bool :=
  String.eqb tag "meta"
  && (VenueHTMLParser.attr_is attributes "property" "place:location:latitude"
      || VenueHTMLParser.attr_is attributes "property"
                                 "place:location:longitude").

(** The [content] of a token that is a coordinate tag. *)
Definition coordinate_content (tok : token) : list (option string) :=
  match tok with
  | StartTag tag attributes =>
      if coordinate_tag tag attributes
      then match VenueHTMLParser.attr attributes "content" with
           | Some value => [value]
           | None => []
           end
      else []
  | _ => []
  end.

(** A venue page with the longitude tag before the latitude tag, both
    outside the container of the link. *)
Definition longitude_first_page : list token :=
  [ StartTag "meta" [("property", Some "place:location:longitude");
                     ("content", Some "-75.2")];
    StartTag "div" [("class", Some "venue-social")];
    StartTag "a" [("class", Some "fs track-click");
                  ("href", Some "https://foursquare.com/v/abc?ref=untappd")];
    EndTag "a";
    EndTag "div";
    StartTag "meta" [("property", Some "place:location:latitude");
                     ("content", Some "40.1")] ].

(** *** A post with a comment and a rating *)

Definition float_4_5 (text : string) : result QArith_base.Q :=
  if String.eqb text "4.5" then Ok (QArith_base.Qmake 9 2)
  else Raise ValueError.

Definition rated_post : Parse.payload :=
  {| Parse.link := "https://untappd.com/user/alice/checkin/101";
     Parse.title := "alice is drinking a Sculpin at The Pub";
     Parse.summary := "Good (really) (4.5/5 Stars)";
     Parse.published := "Mon, 03 Jun 2019 01:00:00 +0000" |}.

Definition rated_row : Parse.row :=
  {| Parse.guid := 101;
     Parse.username := "alice";
     Parse.brewery := "68";
     Parse.beer := "Sculpin";
     Parse.venue := "The Pub";
     Parse.comment := "Good (really) ";
     Parse.rating := Some (QArith_base.Qmake 9 2);
     Parse.date := "Mon, 03 Jun 2019 01:00:00 +0000";
     Parse.url := "https://untappd.com/user/alice/checkin/101" |}.

(** *** The width of the records *)

(** Every record of the registry has the seven columns that follow the
    venue name in venue_locations.csv. *)
Definition seven_wide (d : Registry.t) : Prop :=
  Forall (fun item => List.length (snd item) = 7) d.

Definition seven_columns (s : Enrich.state) : Prop :=
  seven_wide (Enrich.venue_dict s).

(** A state with seven-column records, and a result of five cells. *)
Definition five_cells (found : list pyval) (s : Enrich.state) : Prop :=
  seven_columns s /\ List.length found = 5.

(** *** Object keys of stored posts *)



(** *** The width of the records in the premium pass *)

Definition premium_seven (s : Premium.state) : Prop :=
  seven_wide (Premium.venue_dict s).

(** A world in which the details request finds the venue. *)
Definition details_found : Premium.world :=
  {| Premium.foursquare := fun _ _ =>
       Answered 200
         {| Foursquare.venue_location :=
              Some {| Foursquare.formattedAddress :=
                        Some (Foursquare.AddressList ["1 Main St"]);
                      Foursquare.lat := Some (PStr "40.1");
                      Foursquare.lng := Some (PStr "-75.2");
                      Foursquare.country := Some "United States" |};
            Foursquare.venue_categories := Some [] |} |}.

(* ================================================================== *)
(** * Properties *)

(** ** Dictionaries and programs *)

Lemma dict_get_set {V : Type} (d : Dict.t V) (k q : string) (v : V) :
  Dict.get (Dict.set d k v) q
  = if String.eqb q k then Some v else Dict.get d q.
Proof.
  induction d as [|[k' v'] d IH]; simpl; [reflexivity|].
  destruct (String.eqb_spec k k') as [<- | Hk]; simpl.
  - now destruct (String.eqb q k).
  - rewrite IH.
    destruct (String.eqb_spec q k') as [-> | Hq]; [|reflexivity].
    destruct (String.eqb_spec k' k) as [E | _]; [congruence | reflexivity].
Qed.

Lemma dict_keys_set {V : Type} (d : Dict.t V) (k : string) (v : V) :
  Dict.keys (Dict.set d k v)
  = if Dict.mem d k then Dict.keys d else (Dict.keys d ++ [k])%list.
Proof.
  unfold Dict.mem, Dict.keys.
  induction d as [|[k' v'] d IH]; simpl; [reflexivity|].
  destruct (String.eqb_spec k k') as [<- | Hk]; simpl; [reflexivity|].
  rewrite IH.
  now destruct (Dict.get d k).
Qed.

Lemma dict_get_in_keys {V : Type} (d : Dict.t V) (k : string) :
  Dict.get d k = None <-> ~ In k (Dict.keys d).
Proof.
  induction d as [|[k' v'] d IH]; simpl; [intuition|].
  destruct (String.eqb_spec k k') as [<- | Hk].
  - split; [discriminate | intros H; exfalso; apply H; now left].
  - rewrite IH. intuition congruence.
Qed.

Lemma dict_set_nodup {V : Type} (d : Dict.t V) (k : string) (v : V) :
  NoDup (Dict.keys d) -> NoDup (Dict.keys (Dict.set d k v)).
Proof.
  intros H. rewrite dict_keys_set. unfold Dict.mem.
  destruct (Dict.get d k) eqn:E; [exact H|].
  apply dict_get_in_keys in E.
  apply NoDup_app; [exact H | repeat constructor; intros [] | ].
  intros x Hx [<- | []]. contradiction.
Qed.

Section Triples.

Context {S : Type}.

Lemma triple_ret {A : Type} (P : S -> Prop) (a : A)
      (Q : A -> S -> Prop) (E : S -> Prop) :
  (forall s, P s -> Q a s) -> triple P (ret a) Q E.
Proof. intros H s Hs. now apply H. Qed.

Lemma triple_bind {A B : Type} (P : S -> Prop) (m : M S A) (k : A -> M S B)
      (R : A -> S -> Prop) (Q : B -> S -> Prop) (E : S -> Prop) :
  triple P m R E -> (forall a, triple (R a) (k a) Q E) ->
  triple P (bind m k) Q E.
Proof.
  intros Hm Hk s Hs. unfold bind. specialize (Hm s Hs).
  destruct (m s) as [[a | e |] s1]; auto.
  now apply Hk.
Qed.

Lemma triple_lift {A : Type} (P : S -> Prop) (r : result A)
      (Q : A -> S -> Prop) (E : S -> Prop) :
  (forall s, P s -> match r with Ok a => Q a s | _ => E s end) ->
  triple P (lift r) Q E.
Proof. intros H s Hs. unfold lift. specialize (H s Hs). now destruct r. Qed.

Lemma triple_gets {A : Type} (P : S -> Prop) (f : S -> A)
      (Q : A -> S -> Prop) (E : S -> Prop) :
  (forall s, P s -> Q (f s) s) -> triple P (gets f) Q E.
Proof. intros H s Hs. now apply H. Qed.

Lemma triple_modify (P : S -> Prop) (f : S -> S)
      (Q : unit -> S -> Prop) (E : S -> Prop) :
  (forall s, P s -> Q tt (f s)) -> triple P (modify f) Q E.
Proof. intros H s Hs. now apply H. Qed.

Lemma triple_weaken {A : Type} (P P' : S -> Prop) (m : M S A)
      (Q Q' : A -> S -> Prop) (E E' : S -> Prop) :
  triple P' m Q' E' ->
  (forall s, P s -> P' s) -> (forall a s, Q' a s -> Q a s) ->
  (forall s, E' s -> E s) ->
  triple P m Q E.
Proof.
  intros H HP HQ HE s Hs. specialize (H s (HP s Hs)).
  destruct (m s) as [[a | e |] s1]; auto.
Qed.

Lemma keeps_ret {A : Type} (P : S -> Prop) (a : A) : keeps P (ret a).
Proof. now apply triple_ret. Qed.

Lemma keeps_bind {A B : Type} (P : S -> Prop) (m : M S A) (k : A -> M S B) :
  keeps P m -> (forall a, keeps P (k a)) -> keeps P (bind m k).
Proof. intros Hm Hk. eapply triple_bind; [exact Hm | exact Hk]. Qed.

Lemma keeps_lift {A : Type} (P : S -> Prop) (r : result A) : keeps P (lift r).
Proof. apply triple_lift. intros s Hs. now destruct r. Qed.

Lemma keeps_gets {A : Type} (P : S -> Prop) (f : S -> A) : keeps P (gets f).
Proof. now apply triple_gets. Qed.

Lemma keeps_modify (P : S -> Prop) (f : S -> S) :
  (forall s, P s -> P (f s)) -> keeps P (modify f).
Proof. intros H. now apply triple_modify. Qed.

End Triples.

(** Walks through a program built from [bind], [if] and [match], leaving
    the requests and assignments to the hints of [keeps]. *)
Create HintDb keeps.

Ltac keep :=
  repeat first
    [ apply keeps_ret
    | apply keeps_lift
    | apply keeps_gets
    | solve [eauto with keeps]
    | apply keeps_bind; [ | intros ? ]
    | match goal with
      | |- keeps _ (if ?b then _ else _) => destruct b
      | |- keeps _ (match ?x with _ => _ end) => destruct x
      end ].

(** ** Title parsing (parse_post) *)

(** C4, as stated, fails: [parse_post] drops the first word that follows
    " is drinking " (the article of a feed title), so the first example title
    yields the beverage "at Sea Stout" and the other two raise IndexError. *)
Lemma title_examples_without_article :
  Parse.parse_title "alice is drinking Victory at Sea Stout at The Brewery"
    = Ok ("at Sea Stout", "The Brewery")
  /\ Parse.parse_title "bob is drinking IPA at Taproom" = Raise IndexError
  /\ Parse.parse_title "carol is drinking Pilsner" = Raise IndexError
  /\ (spec_title_examples -> False).
Proof.
  repeat split; try reflexivity.
  intros [H _]. vm_compute in H. discriminate H.
Qed.

(** C4, amended: on titles of the shape the feed delivers,
    "<actor> is drinking <article> <beverage> at <venue>", the exception list
    moves the cut to the second " at ", a title outside the list is cut at
    the first, and a title with no " at " has the empty venue. *)
Theorem title_examples_with_article :
  Parse.parse_title "alice is drinking a Victory at Sea Stout at The Brewery"
    = Ok ("Victory at Sea Stout", "The Brewery")
  /\ Parse.parse_title "bob is drinking an IPA at Taproom" = Ok ("IPA", "Taproom")
  /\ Parse.parse_title "carol is drinking a Pilsner" = Ok ("Pilsner", "").
Proof.
  repeat split; reflexivity.
Qed.

(** ** The ingestion watermark (update-untappd-rss-feed-data.py) *)

Section Watermark.

Import Update.

Variable py_int : string -> result Z.

Local Open Scope Z_scope.

Lemma fold_max_le (l : list Z) :
  forall m, m <= fold_left Z.max l m
            /\ forall x, In x l -> x <= fold_left Z.max l m.
Proof.
  induction l as [|a l IH]; intros m; cbn [fold_left].
  - split; [lia | contradiction].
  - destruct (IH (Z.max m a)) as [H1 H2]. split; [lia|].
    intros x [<- | Hx]; [lia | now apply H2].
Qed.

Lemma ids_above_gt (stored : Z) (posts : list post) (x : Z) :
  In x (ids_above py_int stored posts) -> x > stored.
Proof.
  unfold ids_above. intros H. apply in_flat_map in H.
  destruct H as (p & _ & Hx). unfold above in Hx.
  destruct (post_id py_int p) as [i | |]; try contradiction.
  destruct (i >? stored) eqn:E; [|contradiction].
  destruct Hx as [<- | []]. lia.
Qed.

Lemma written_app (a b : list event) :
  written (a ++ b) = (written a ++ written b)%list.
Proof. apply flat_map_app. Qed.

Lemma stored_after_puts (puts : list event) :
  forallb is_put puts = true ->
  forall stored rest,
    stored_after stored (puts ++ rest) = stored_after stored rest.
Proof.
  induction puts as [|e puts IH]; intros Hp stored rest; [reflexivity|].
  cbn in Hp. apply andb_prop in Hp. destruct Hp as [He Hp].
  destruct e; try discriminate. cbn. now apply IH.
Qed.

Ltac stopped H :=
  injection H as <- <-; cbn; rewrite ?app_nil_r;
  split; [reflexivity|]; split; [reflexivity|]; split; [reflexivity|];
  let E := fresh in intros ? E; discriminate E.

(** The loop writes a prefix of the entries above the stored id, in
    delivery order, and all of them when it returns. *)
Lemma loop_spec (fault : list event -> option exn) (stored : Z)
      (posts : list post) :
  forall most log r log',
    loop py_int fault stored posts most log = (r, log') ->
    exists puts rest,
      log' = (log ++ puts)%list
      /\ forallb is_put puts = true
      /\ ids_above py_int stored posts = (written puts ++ rest)%list
      /\ forall m,
          r = Ok m -> rest = [] /\ m = fold_left Z.max (written puts) most.
Proof.
  induction posts as [|p rest IH]; intros most log r log' H.
  - injection H as <- <-. exists [], []. cbn. rewrite app_nil_r.
    split; [reflexivity|]. split; [reflexivity|]. split; [reflexivity|].
    intros m H. injection H as <-. now split.
  - cbn [loop] in H. unfold bind at 1 in H. unfold lift at 1 in H.
    unfold ids_above. cbn [flat_map]. fold (ids_above py_int stored rest).
    unfold above.
    destruct (post_id py_int p) as [i | e |].
    + destruct (i >? stored) eqn:E.
      * unfold bind at 1 in H. unfold write_post_to_s3 in H.
        unfold bind at 1 in H. unfold lift at 1 in H.
        destruct (after_last_slash (base p)) as [b | e |].
        -- unfold call in H. destruct (fault log) as [e|].
           ++ exists [], (i :: ids_above py_int stored rest). stopped H.
           ++ destruct (IH _ _ _ _ H)
                as (puts & tail & Hlog & Hputs & Hids & Hret).
              exists (PutPost b i :: puts), tail.
              rewrite Hlog, <- app_assoc. cbn. rewrite Hids.
              split; [reflexivity|]. split; [exact Hputs|].
              split; [reflexivity | exact Hret].
        -- exists [], (i :: ids_above py_int stored rest). stopped H.
        -- exists [], (i :: ids_above py_int stored rest). stopped H.
      * cbn [app]. exact (IH _ _ _ _ H).
    + exists [], (ids_above py_int stored rest). stopped H.
    + exists [], (ids_above py_int stored rest). stopped H.
Qed.

(** A run: the log is the read, the posts written, and, only when nothing
    raised, the write of the new id. *)
Lemma main_spec (fault : list event -> option exn) (stored : Z)
      (posts : list post) (r : result unit) (log : list event) :
  main py_int fault stored posts [] = (r, log) ->
  exists puts rest,
    forallb is_put puts = true
    /\ ids_above py_int stored posts = (written puts ++ rest)%list
    /\ ((r = Ok tt
         /\ rest = []
         /\ log = (GetLastUpdate :: puts
                   ++ [PutLastUpdate (fold_left Z.max (written puts) stored)])%list)
        \/ (r <> Ok tt /\ (log = [] \/ log = GetLastUpdate :: puts))).
Proof.
  unfold main, get_last_update_id, set_last_update_id.
  unfold bind at 1. unfold call at 1.
  destruct (fault []) as [e|].
  { intros H. injection H as <- <-.
    exists [], (ids_above py_int stored posts). cbn.
    split; [reflexivity|]. split; [reflexivity|].
    right. split; [discriminate | now left]. }
  unfold bind at 1.
  destruct (loop py_int fault stored posts stored ([] ++ [GetLastUpdate])%list)
    as [r0 log0] eqn:L.
  destruct (@loop_spec _ _ _ _ _ _ _ L) as (puts & rest & Hlog & Hputs & Hids & Hret).
  intros H. exists puts, rest. split; [exact Hputs|]. split; [exact Hids|].
  subst log0. destruct r0 as [m | e |].
  - destruct (Hret m eq_refl) as [-> ->]. unfold call in H.
    destruct (fault _) as [e|]; injection H as <- <-.
    + right. split; [discriminate | now right].
    + left. split; [reflexivity|]. split; reflexivity.
  - injection H as <- <-. right. split; [discriminate | now right].
  - injection H as <- <-. right. split; [discriminate | now right].
Qed.

Lemma run_written (stored : Z) (d : delivery) :
  exists rest,
    ids_above py_int stored (posts d)
    = (written (snd (run py_int stored d)) ++ rest)%list
    /\ (fst (run py_int stored d) = Ok tt -> rest = []).
Proof.
  unfold run.
  destruct (main py_int (faults d) stored (posts d) []) as [r log] eqn:R.
  destruct (@main_spec _ _ _ _ _ R)
    as (puts & rest & Hputs & Hids
        & [(-> & -> & ->) | (Hno & [-> | ->])]); cbn [fst snd].
  - exists []. split; [|reflexivity].
    cbn. rewrite written_app. cbn. now rewrite !app_nil_r in *.
  - exists (ids_above py_int stored (posts d)). split; [reflexivity|].
    intros H. contradiction.
  - exists rest. split; [exact Hids|]. intros H. contradiction.
Qed.

Lemma run_stored (stored : Z) (d : delivery) :
  stored <= stored_after stored (snd (run py_int stored d))
  /\ (fst (run py_int stored d) = Ok tt ->
      forall x, In x (written (snd (run py_int stored d))) ->
                x <= stored_after stored (snd (run py_int stored d))).
Proof.
  unfold run.
  destruct (main py_int (faults d) stored (posts d) []) as [r log] eqn:R.
  destruct (@main_spec _ _ _ _ _ R)
    as (puts & rest & Hputs & Hids
        & [(-> & -> & ->) | (Hno & [-> | ->])]); cbn [fst snd].
  - cbn [stored_after]. rewrite (stored_after_puts _ Hputs). cbn.
    destruct (fold_max_le (written puts) stored) as [H1 H2].
    split; [exact H1|]. intros _ x Hx.
    rewrite written_app in Hx. cbn in Hx. rewrite app_nil_r in Hx.
    now apply H2.
  - cbn. split; [lia|]. intros H. contradiction.
  - cbn [stored_after].
    rewrite <- (app_nil_r puts), (stored_after_puts _ Hputs). cbn.
    split; [lia|]. intros H. contradiction.
Qed.



End Watermark.



(** ** The tag scanners *)

Section ScopeFlag.

Variable container : string.
Variable qualifies : list (string * option string) -> bool.



End ScopeFlag.

Section ScopeLinks.

Variable L : Type.
Variable container : string.
Variable qualifies : list (string * option string) -> bool.
Variable link : string -> list (string * option string) -> option L.


End ScopeLinks.



Ltac scanned :=
  let H := fresh in
  intros H; inversion H; subst; clear H; cbn;
  rewrite ?andb_false_r; cbn; rewrite ?app_nil_r; auto.




(** The venue scanner indexes [attributes_dict] at 'href' and 'content'
    without a test: a qualifying link with no href raises KeyError, as does
    a coordinate tag with no content. *)
Lemma venue_scanner_raises_on_missing_attribute :
  feed VenueHTMLParser.init
       [ StartTag "div" [("class", Some "venue-social")];
         StartTag "a" [("class", Some "fs track-click")] ]
    = Raise KeyError
  /\ feed VenueHTMLParser.init
       [ StartTag "meta" [("property", Some "place:location:latitude")] ]
    = Raise KeyError.
Proof.
  split; reflexivity.
Qed.


(** ** The parse cursor (parse-untappd-rss-feed-data.py) *)


Lemma listed_from_app (w : Parse.world) (log2 : list Parse.event) :
  forall log1 pre,
    listed_from w pre (log1 ++ log2)
    = (listed_from w pre log1 ++ listed_from w (pre ++ log1) log2)%list.
Proof.
  induction log1 as [|ev log1 IH]; intros pre; cbn.
  - now rewrite app_nil_r.
  - rewrite IH, <- !app_assoc. reflexivity.
Qed.

Lemma listed_snoc (w : Parse.world) (log : list Parse.event)
      (ev : Parse.event) :
  listed w (log ++ [ev])
  = (listed w log
     ++ match ev with
        | Parse.ListObjects prefix start => Parse.contents w log prefix start
        | _ => []
        end)%list.
Proof.
  unfold listed. rewrite listed_from_app. cbn. now rewrite app_nil_r.
Qed.

Section ParseCursor.

Variable py_int : string -> result Z.
Variable py_float : string -> result QArith_base.Q.
Variable w : Parse.world.
Variable json : Dict.t string.

Lemma fetched_row_later (log evs : list Parse.event) (key : string)
      (row : Parse.row) :
  fetched_row py_int py_float w log key row ->
  fetched_row py_int py_float w (log ++ evs) key row.
Proof.
  intros (l & l' & -> & H). exists l, (l' ++ evs)%list.
  split; [now rewrite <- app_assoc | exact H].
Qed.

Lemma fetched_rows_later (log evs : list Parse.event) (keys : list string)
      (rows : list Parse.row) :
  Forall2 (fetched_row py_int py_float w log) keys rows ->
  Forall2 (fetched_row py_int py_float w (log ++ evs)) keys rows.
Proof.
  induction 1; constructor; auto. now apply fetched_row_later.
Qed.

Lemma cursor_backed_later (log evs : list Parse.event)
      (ids : Dict.t string) (rows : list Parse.row) :
  cursor_backed py_int py_float w json log ids rows ->
  cursor_backed py_int py_float w json (log ++ evs) ids rows.
Proof.
  intros H b i Hb.
  destruct (H b i Hb) as [E | [E | (key & row & Hf & Hrest)]]; auto.
  right. right. exists key, row. split; [|exact Hrest].
  now apply fetched_row_later.
Qed.

Lemma parsing_no_write (todo : list string) (s : Parse.state) :
  parsing py_int py_float w json todo s -> no_cursor_write s.
Proof. now intros [H _]. Qed.

Lemma no_write_logged (s : Parse.state) (ev : Parse.event) :
  no_cursor_write s -> cursor_write ev = false ->
  no_cursor_write {| Parse.last_parsed_ids := Parse.last_parsed_ids s;
                     Parse.rows := Parse.rows s;
                     Parse.log := (Parse.log s ++ [ev])%list |}.
Proof.
  intros Hs Hev e He. cbn in He. apply in_app_or in He.
  destruct He as [He | [<- | []]]; auto.
Qed.

(** A completed call extends the listed keys by what it listed. *)
Lemma parsing_logged (todo : list string) (s : Parse.state)
      (ev : Parse.event) :
  parsing py_int py_float w json todo s ->
  cursor_write ev = false ->
  parsing py_int py_float w json
    (todo ++ match ev with
             | Parse.ListObjects prefix start =>
                 Parse.contents w (Parse.log s) prefix start
             | _ => []
             end)
    {| Parse.last_parsed_ids := Parse.last_parsed_ids s;
       Parse.rows := Parse.rows s;
       Parse.log := (Parse.log s ++ [ev])%list |}.
Proof.
  intros (Hlog & Hids & done & Hlisted & Hrows) Hev.
  split; [now apply no_write_logged|].
  split; [now apply cursor_backed_later|].
  exists done. cbn [Parse.log Parse.rows]. split.
  - now rewrite listed_snoc, Hlisted, app_assoc.
  - now apply fetched_rows_later.
Qed.

Lemma call_parsing {A : Type} (todo : list string) (ev : Parse.event)
      (answer : list Parse.event -> A) :
  cursor_write ev = false ->
  (forall prefix start, ev <> Parse.ListObjects prefix start) ->
  triple (parsing py_int py_float w json todo) (Parse.call w ev answer)
         (fun _ => parsing py_int py_float w json todo) no_cursor_write.
Proof.
  intros Hev Hquiet s Hs. unfold Parse.call.
  destruct (Parse.fault w (Parse.log s)); [now apply parsing_no_write in Hs|].
  pose proof (@parsing_logged todo s ev Hs Hev) as H.
  destruct ev; try (now rewrite app_nil_r in H).
  now destruct (Hquiet prefix start_after).
Qed.







Variable csv_reader : string -> list (list string).
Variable csv_row : Parse.row -> string.
Variable csv_line : list string -> string.


End ParseCursor.





(** ** Failure outcomes of the lookup calls *)







(** ** The enrichment loop (get-untappd-venue-locations.py) *)

Section EnrichAnyVenue.

Variable w : Enrich.world.
Variable n : string.
Variable P : Enrich.state -> Prop.
Hypothesis closed : enrich_closed n false P.

Lemma emit_any (ev : Enrich.event) : keeps (at_venue n P) (Enrich.emit ev).
Proof.
  intros s [Hs Hc]. unfold Enrich.emit. rewrite Hc.
  split; [|exact Hc]. apply (closed Hs). now constructor.
Qed.

Lemma set_time_any (t : QArith_base.Q) :
  keeps (at_venue n P) (modify (Enrich.set_time t)).
Proof.
  apply keeps_modify. intros s [Hs Hc]. split; [|exact Hc].
  apply (closed Hs). constructor.
Qed.

Lemma set_available_any (b : bool) :
  keeps (at_venue n P) (modify (Enrich.set_available b)).
Proof.
  apply keeps_modify. intros s [Hs Hc]. split; [|exact Hc].
  apply (closed Hs). now constructor.
Qed.

Lemma set_venue_any (info : list pyval) :
  keeps (at_venue n P) (modify (Enrich.set_venue n info)).
Proof.
  apply keeps_modify. intros s [Hs Hc]. split; [|exact Hc].
  apply (closed Hs). now constructor.
Qed.

Hint Resolve emit_any set_time_any set_available_any set_venue_any : keeps.

Lemma requests_get_any (url : string) :
  keeps (at_venue n P) (Enrich.requests_get w url).
Proof. unfold Enrich.requests_get. keep. Qed.

Lemma time_sleep_any (ev : Enrich.event) :
  keeps (at_venue n P) (Enrich.time_sleep w ev).
Proof. unfold Enrich.time_sleep. keep. Qed.

Lemma time_time_any : keeps (at_venue n P) (Enrich.time_time w).
Proof. unfold Enrich.time_time. keep. Qed.

Lemma backup_data_any : keeps (at_venue n P) Enrich.backup_data.
Proof. unfold Enrich.backup_data. keep. Qed.

Hint Resolve requests_get_any time_sleep_any time_time_any backup_data_any
  : keeps.

Lemma search_untappd_any (url : string) :
  keeps (at_venue n P) (Enrich.search_untappd w url).
Proof. unfold Enrich.search_untappd. keep. Qed.

Lemma search_foursquare_any (venue : string) (info : list pyval) :
  keeps (at_venue n P) (Enrich.search_foursquare w venue info).
Proof. unfold Enrich.search_foursquare. keep. Qed.

Hint Resolve search_untappd_any search_foursquare_any : keeps.

Lemma foursquare_and_backup_any (slept : bool) :
  keeps (at_venue n P) (Enrich.foursquare_and_backup w n slept).
Proof. unfold Enrich.foursquare_and_backup. keep. Qed.

Hint Resolve foursquare_and_backup_any : keeps.

Lemma iteration_any (venue : string * string) :
  fst venue = n -> keeps P (Enrich.iteration w venue).
Proof.
  destruct venue as [name url]. cbn [fst]. intros Hn. subst name.
  unfold Enrich.iteration. cbn [fst snd].
  eapply triple_weaken with (P' := P) (Q' := fun _ => at_venue n P)
                            (E' := at_venue n P);
    [ | auto | intros ? ? []; auto | intros ? []; auto ].
  eapply triple_bind with (R := fun _ => at_venue n P).
  - apply triple_modify. intros s Hs. split; [|reflexivity].
    apply (closed Hs). constructor.
  - intros _.
    match goal with |- triple ?A ?m _ _ => change (keeps A m) end.
    keep.
Qed.

End EnrichAnyVenue.

Section EnrichSettledVenue.

Variable w : Enrich.world.
Variable n : string.
Variable P : Enrich.state -> Prop.
Variable info : list pyval.
Hypothesis closed : enrich_closed n true P.
Hypothesis record :
  forall s, P s -> Dict.get (Enrich.venue_dict s) n = Some info.
Hypothesis settled : enrich_settled info = true.

Lemma saved_and_timed (s : Enrich.state) (table : list (list pyval))
      (t : QArith_base.Q) :
  P s ->
  P (Enrich.set_time t
       (Enrich.logged n Enrich.Clock
          (Enrich.logged n (Enrich.Upload table) s))).
Proof.
  intros Hs.
  eapply closed; [|apply touch_time].
  eapply closed; [|apply touch_log; reflexivity].
  eapply closed; [exact Hs | apply touch_log; reflexivity].
Qed.

(** The end of the loop body: the clock is read, and the registry is saved
    when the interval has passed. *)
Lemma backup_when_due (s : Enrich.state) :
  P s -> Enrich.current s = n ->
  exists s',
    bind (Enrich.time_time w)
         (fun now =>
            bind (gets Enrich.time_at_last_backup)
                 (fun last =>
                    bind (if QArith_base.Qle_bool (QArith_base.Qmake 885 1)
                                                  (QArith_base.Qminus now last)
                          then bind Enrich.backup_data
                                    (fun _ =>
                                       bind (Enrich.time_time w)
                                            (fun t => modify (Enrich.set_time t)))
                          else ret tt)
                         (fun _ => ret Enrich.Next))) s
    = (Ok Enrich.Next, s')
    /\ P s'.
Proof.
  intros Hs Hc.
  unfold Enrich.time_time, Enrich.backup_data, Enrich.emit, bind, gets, modify,
    ret. cbn. rewrite Hc.
  assert (H1 : P (Enrich.logged n Enrich.Clock s))
    by (eapply closed; [exact Hs | apply touch_log; reflexivity]).
  destruct (QArith_base.Qle_bool _ _); cbn; rewrite ?Hc; eexists;
    (split; [reflexivity|]); [|exact H1].
  now apply saved_and_timed.
Qed.

Lemma foursquare_and_backup_settled (s : Enrich.state) :
  P s -> Enrich.current s = n ->
  match Enrich.foursquare_and_backup w n false s with
  | (Ok f, s') => P s' /\ f = Enrich.Next
  | (_, s') => P s' /\ nth_error info 1 = None
  end.
Proof.
  intros Hs Hcur.
  pose proof (record Hs) as Hget.
  assert (Hc : contains_str info "" = false).
  { destruct info as [|u rest]; [discriminate settled|].
    cbn [enrich_settled] in settled.
    apply andb_prop in settled. destruct settled as [_ Hc].
    now apply negb_true_iff in Hc. }
  unfold Enrich.foursquare_and_backup.
  unfold bind at 1. unfold gets at 1.
  unfold bind at 1. unfold gets at 1.
  unfold bind at 1. unfold lift at 1.
  unfold Enrich.wants_foursquare, Dict.lookup. rewrite Hget.
  cbn [rbind]. unfold index. rewrite Hc.
  destruct (backup_when_due Hs Hcur) as (s' & E & Hs').
  destruct (Enrich.foursquare_available s).
  - destruct (nth_error info 1) as [f|]; [|now split].
    cbn [rbind]. rewrite andb_false_r.
    unfold bind at 1. unfold ret at 1.
    rewrite E. now split.
  - unfold bind at 1. unfold ret at 1.
    rewrite E. now split.
Qed.

Lemma iteration_settled (venue : string * string) :
  fst venue = n ->
  triple P (Enrich.iteration w venue)
         (fun f s => P s /\ f = Enrich.Next)
         (fun s => P s /\ nth_error info 1 = None).
Proof.
  destruct venue as [name url]. cbn [fst]. intros Hn. subst name.
  intros s Hs.
  assert (H1 : P (Enrich.set_current n s))
    by (eapply closed; [exact Hs | apply touch_current]).
  pose proof (record H1) as Hget. cbn in Hget.
  assert (Hu : exists u rest, info = u :: rest /\ truthy u = true).
  { destruct info as [|u rest]; [discriminate settled|].
    cbn [enrich_settled] in settled.
    apply andb_prop in settled. destruct settled as [Hu _].
    now exists u, rest. }
  destruct Hu as (u & rest & Einfo & Hu).
  unfold Enrich.iteration. cbn [fst snd].
  unfold bind at 1. unfold modify.
  unfold bind at 1. unfold gets.
  unfold bind at 1. unfold lift, Enrich.lacks_untappd.
  cbn [Enrich.venue_dict Enrich.set_current].
  rewrite Hget.
  replace (index info 0) with (Ok u) by (rewrite Einfo; reflexivity).
  cbn [rbind]. rewrite Hu. cbn [negb].
  pose proof (@foursquare_and_backup_settled (Enrich.set_current n s) H1 eq_refl)
    as H.
  destruct (Enrich.foursquare_and_backup w n false (Enrich.set_current n s))
    as [[f | e |] s']; exact H.
Qed.

End EnrichSettledVenue.

Lemma for_venues_keeps (w : Enrich.world) (P : Enrich.state -> Prop)
      (venue_list : list (string * string)) :
  (forall venue, In venue venue_list -> keeps P (Enrich.iteration w venue)) ->
  keeps P (Enrich.for_venues w venue_list).
Proof.
  induction venue_list as [|venue rest IH]; intros H; cbn [Enrich.for_venues].
  - apply keeps_ret.
  - apply keeps_bind; [apply H; now left|].
    intros [|]; [apply IH; intros; apply H; now right | apply keeps_ret].
Qed.

(** [main] is the prelude, the loop, and the save when the loop returned,
    broke off or was interrupted. *)
Lemma main_unfold (w : Enrich.world) (venue_list : list (string * string))
      (s : Enrich.state) :
  Enrich.main w venue_list s
  = match Enrich.for_venues w venue_list (enrich_loop_start w s) with
    | (Ok _, s1) => (Ok tt, enrich_saved s1)
    | (Raise KeyboardInterrupt, s1) => (Ok tt, enrich_saved s1)
    | (Raise e, s1) => (Raise e, s1)
    | (Unfinished, s1) => (Unfinished, s1)
    end.
Proof.
  unfold Enrich.main, Enrich.prelude, Enrich.except_KeyboardInterrupt,
    Enrich.backup_data, Enrich.time_time, Enrich.emit, bind, modify, gets, ret.
  cbn. fold (enrich_loop_start w s).
  destruct (Enrich.for_venues w venue_list (enrich_loop_start w s))
    as [[[] | [] |] s1]; reflexivity.
Qed.

Lemma main_keeps (w : Enrich.world) (P : Enrich.state -> Prop)
      (venue_list : list (string * string)) :
  enrich_harmless P ->
  (forall venue, In venue venue_list -> keeps P (Enrich.iteration w venue)) ->
  keeps P (Enrich.main w venue_list).
Proof.
  intros Hh Hit s Hs. rewrite main_unfold.
  assert (H0 : P (enrich_loop_start w s)).
  { unfold enrich_loop_start.
    apply Hh. apply Hh; [|reflexivity]. now apply Hh. }
  pose proof (@for_venues_keeps w P venue_list Hit _ H0) as H1.
  assert (Hsave : forall s1, P s1 -> P (enrich_saved s1))
    by (intros s1 H; now apply Hh).
  destruct (Enrich.for_venues w venue_list (enrich_loop_start w s))
    as [[[] | [] |] s1]; auto.
Qed.

Lemma untouched_harmless (name : string) (info : list pyval) :
  enrich_harmless (enrich_untouched name info).
Proof.
  intros s [Hg Hl]. repeat split; auto. cbn.
  intros ev' Hin. apply in_app_or in Hin.
  destruct Hin as [Hin | [Hin | []]]; [auto | congruence].
Qed.

Lemma untouched_closed_same (name : string) (info : list pyval) :
  enrich_closed name true (enrich_untouched name info).
Proof.
  intros s s' [Hg Hl] Ht.
  destruct Ht as [s ev Hq | s t | s | s b Hq | s i Hq]; try discriminate;
    split; auto.
  cbn. intros ev' Hin. apply in_app_or in Hin.
  destruct Hin as [Hin | [Hin | []]]; [auto|].
  inversion Hin; subst. auto.
Qed.

Lemma untouched_closed_other (name n : string) (info : list pyval) (quiet : bool) :
  n <> name -> enrich_closed n quiet (enrich_untouched name info).
Proof.
  intros Hn s s' [Hg Hl] Ht.
  destruct Ht as [s ev Hq | s t | s | s b Hq | s i Hq]; split; auto; cbn.
  - intros ev' Hin. apply in_app_or in Hin.
    destruct Hin as [Hin | [Hin | []]]; [auto | congruence].
  - rewrite dict_get_set.
    destruct (String.eqb_spec name n); [congruence | exact Hg].
Qed.

(** A run of the enrichment loop keeps a settled record as it is and sends
    nothing upstream for it. *)
Lemma enrich_keeps_settled (w : Enrich.world)
      (venue_list : list (string * string)) (name : string) (info : list pyval) :
  enrich_settled info = true ->
  keeps (enrich_untouched name info) (Enrich.main w venue_list).
Proof.
  intros Hset. apply main_keeps; [apply untouched_harmless|].
  intros venue _.
  destruct (String.eqb_spec (fst venue) name) as [E | E].
  - eapply triple_weaken.
    + apply (@iteration_settled w name (enrich_untouched name info) info);
        [apply untouched_closed_same | now intros s [H _] | exact Hset | exact E].
    + auto.
    + now intros a s [H _].
    + now intros s [H _].
  - apply (@iteration_any w (fst venue));
      [now apply untouched_closed_other | reflexivity].
Qed.

(** ** The premium pass (clean-and-backup-untappd-data.py) *)

Section PremiumOtherVenue.

Variable w : Premium.world.
Variable name n : string.
Variable info : list pyval.
Hypothesis other : n <> name.

Lemma premium_emit_other (ev : Premium.event) :
  keeps (premium_at n (premium_untouched name info)) (Premium.emit ev).
Proof.
  intros s [[Hg Hl] Hc]. unfold Premium.emit. rewrite Hc.
  repeat split; auto. cbn.
  intros ev' Hin. apply in_app_or in Hin.
  destruct Hin as [Hin | [Hin | []]]; [auto | congruence].
Qed.

Lemma premium_set_venue_other (i : list pyval) :
  keeps (premium_at n (premium_untouched name info))
        (modify (Premium.set_venue n i)).
Proof.
  apply keeps_modify. intros s [[Hg Hl] Hc]. repeat split; auto. cbn.
  rewrite dict_get_set.
  destruct (String.eqb_spec name n); [congruence | exact Hg].
Qed.

Hint Resolve premium_emit_other premium_set_venue_other : keeps.

Lemma premium_search_other (url : pyval) (coords : list pyval) :
  keeps (premium_at n (premium_untouched name info))
        (Premium.search_foursquare w url coords).
Proof. unfold Premium.search_foursquare. keep. Qed.

Hint Resolve premium_search_other : keeps.

Lemma premium_iteration_other :
  keeps (premium_untouched name info) (Premium.iteration w n).
Proof.
  unfold Premium.iteration.
  eapply triple_weaken with
    (P' := premium_untouched name info)
    (Q' := fun _ => premium_at n (premium_untouched name info))
    (E' := premium_at n (premium_untouched name info));
    [ | auto | intros ? ? []; auto | intros ? []; auto ].
  eapply triple_bind with
    (R := fun _ => premium_at n (premium_untouched name info)).
  - apply triple_modify. intros s [Hg Hl]. repeat split; auto.
  - intros _.
    match goal with |- triple ?A ?m _ _ => change (keeps A m) end.
    keep.
Qed.

End PremiumOtherVenue.

Lemma premium_iteration_settled (w : Premium.world) (name : string)
      (info : list pyval) :
  premium_settled info = true ->
  keeps (premium_untouched name info) (Premium.iteration w name).
Proof.
  intros Hset s [Hg Hl].
  unfold Premium.iteration, bind, modify, gets, lift, Dict.lookup. cbn.
  rewrite Hg. unfold index.
  unfold premium_settled in Hset.
  destruct (nth_error info 1) as [f|]; [|now split].
  destruct (nth_error info 3); [|now split].
  destruct (nth_error info 4); [|now split].
  rewrite Hset. now split.
Qed.

Lemma premium_for_items_keeps (w : Premium.world) (P : Premium.state -> Prop)
      (venues : list string) :
  (forall venue, keeps P (Premium.iteration w venue)) ->
  keeps P (Premium.for_items w venues).
Proof.
  intros H. induction venues as [|venue rest IH]; cbn [Premium.for_items].
  - apply keeps_ret.
  - apply keeps_bind; [apply H|].
    intros [|]; [exact IH | apply keeps_ret].
Qed.

(** A run of the premium pass keeps a settled record as it is and sends no
    details request for it. *)
Lemma premium_keeps_settled (w : Premium.world) (name : string)
      (info : list pyval) :
  premium_settled info = true ->
  keeps (premium_untouched name info) (Premium.main w).
Proof.
  intros Hset.
  assert (Hemit : forall ev, Premium.lookup_call ev = false ->
                             keeps (premium_untouched name info)
                                   (Premium.emit ev)).
  { intros ev Hev s [Hg Hl]. unfold Premium.emit. split; auto. cbn.
    intros ev' Hin. apply in_app_or in Hin.
    destruct Hin as [Hin | [Hin | []]]; [auto | congruence]. }
  unfold Premium.main.
  apply keeps_bind; [apply keeps_gets|]. intros d.
  apply keeps_bind.
  - apply premium_for_items_keeps. intros venue.
    destruct (String.eqb_spec venue name) as [-> | E].
    + now apply premium_iteration_settled.
    + now apply premium_iteration_other.
  - intros _. apply keeps_bind; [apply keeps_gets|]. intros d'.
    apply keeps_bind; [now apply Hemit|]. intros _.
    apply keeps_bind; [now apply Hemit|]. intros _. apply keeps_ret.
Qed.

(** ** Reconciliation over the registry *)

(** C1, as stated, fails: a lookup result replaces all five attribute
    columns of the record at once.  In the enrichment loop a successful
    search overwrites the scraped latitude "40.1" with Foursquare's number;
    in the premium pass a details answer without coordinates turns the
    known latitude into 'Unavailable'. *)
Lemma resolved_latitude_overwritten :
  nth_error pub_scraped 3 = Some (PStr "40.1")
  /\ Dict.get (Enrich.venue_dict
                (snd (Enrich.main search_finds_pub
                        [("The Pub", "https://untappd.com/user/a/checkin/1")]
                        (Enrich.start [("The Pub", pub_scraped)]))))
             "The Pub"
     = Some [PStr "https://untappd.com/v/the-pub/1";
             PStr "https://foursquare.com/v/4b5";
             PStr "1 Main St, Philadelphia";
             PNum (QArith_base.Qmake 401234 10000);
             PNum (QArith_base.Qmake (-752345) 10000);
             PStr "Bar"; PBool true]
  /\ nth_error pub_missing 3 = Some (PStr "40.1")
  /\ Dict.get (Premium.venue_dict
                (snd (Premium.main details_without_coordinates
                        (Premium.start [("The Pub", pub_missing)]))))
             "The Pub"
     = Some [PStr "https://untappd.com/v/the-pub/1";
             PStr "https://foursquare.com/v/4b5";
             PStr "1 Main St"; PStr "Unavailable"; PStr "Unavailable";
             PStr "Uncategorized"; PBool true].
Proof.
  repeat split; vm_compute; reflexivity.
Qed.

(** C1, amended: a pass changes only the records it selects.  The
    enrichment loop leaves a record with an Untappd url and no empty cell as
    it is, and the premium pass leaves a record with no 'Missing' cell, or
    with 'Missing' as its Foursquare url, as it is; whatever the upstream
    sources answer and however the run ends. *)
Theorem settled_records_unchanged
        (d : Registry.t) (name : string) (info : list pyval) :
  Dict.get d name = Some info ->
  (forall (w : Enrich.world) (venue_list : list (string * string)),
      enrich_settled info = true ->
      Dict.get (Enrich.venue_dict
                  (snd (Enrich.main w venue_list (Enrich.start d)))) name
      = Some info)
  /\ (forall w : Premium.world,
         premium_settled info = true ->
         Dict.get (Premium.venue_dict
                     (snd (Premium.main w (Premium.start d)))) name
         = Some info).
Proof.
  intros Hget. split.
  - intros w venue_list Hset.
    pose proof (@enrich_keeps_settled w venue_list name info Hset
                  (Enrich.start d)) as H.
    destruct (Enrich.main w venue_list (Enrich.start d)) as [[a | e |] s];
      apply H; (split; [exact Hget | intros ev []]).
  - intros w Hset.
    pose proof (@premium_keeps_settled w name info Hset (Premium.start d)) as H.
    destruct (Premium.main w (Premium.start d)) as [[a | e |] s];
      apply H; (split; [exact Hget | intros ev []]).
Qed.

(** A resolved record goes through both passes unchanged, also when
    Foursquare would answer. *)
Lemma settled_records_unchanged_witness :
  Dict.get (Enrich.venue_dict
              (snd (Enrich.main search_finds_pub
                      [("The Pub", "https://untappd.com/user/a/checkin/1")]
                      (Enrich.start [("The Pub", pub_resolved)]))))
           "The Pub"
  = Some pub_resolved
  /\ Dict.get (Premium.venue_dict
                 (snd (Premium.main details_without_coordinates
                         (Premium.start [("The Pub", pub_resolved)]))))
              "The Pub"
     = Some pub_resolved.
Proof.
  split.
  - apply (proj1 (@settled_records_unchanged [("The Pub", pub_resolved)]
                    "The Pub" pub_resolved eq_refl)).
    reflexivity.
  - apply (proj2 (@settled_records_unchanged [("The Pub", pub_resolved)]
                    "The Pub" pub_resolved eq_refl)).
    reflexivity.
Defined.

(** C3, as stated, fails: the enrichment loop writes 'Missing' when the
    search finds no candidate ("do not try again"), and the premium pass
    selects exactly the records that hold 'Missing', so it sends a details
    request for that venue. *)
Lemma premium_retries_missing :
  Dict.get (Enrich.venue_dict
              (snd (Enrich.main search_finds_nothing
                      [("The Pub", "https://untappd.com/user/a/checkin/1")]
                      (Enrich.start [("The Pub", pub_scraped)]))))
           "The Pub"
  = Some pub_missing
  /\ Premium.log (snd (Premium.main details_down
                         (Premium.start [("The Pub", pub_missing)])))
     = [ ("The Pub", Premium.VenueDetails "4b5");
         ("The Pub",
          Premium.Upload
            (Registry.write_dict_to_csv [("The Pub", pub_missing)]));
         ("The Pub", Premium.CreateBackup) ].
Proof.
  split; vm_compute; reflexivity.
Qed.

(** C3, amended: within a pass, a record the pass does not select causes no
    upstream request.  The enrichment loop sends nothing to Untappd or
    Foursquare for a record with an Untappd url and no empty cell (so not
    for one it marked 'Missing' throughout), and the premium pass sends no
    details request for a record with no 'Missing' cell (so not for one it
    marked 'Unavailable') or with 'Missing' as its Foursquare url. *)
Theorem settled_records_not_requested
        (d : Registry.t) (name : string) (info : list pyval) :
  Dict.get d name = Some info ->
  (forall (w : Enrich.world) (venue_list : list (string * string))
          (ev : Enrich.event),
      enrich_settled info = true ->
      In (name, ev)
         (Enrich.log (snd (Enrich.main w venue_list (Enrich.start d)))) ->
      Enrich.upstream ev = false)
  /\ (forall (w : Premium.world) (ev : Premium.event),
         premium_settled info = true ->
         In (name, ev) (Premium.log (snd (Premium.main w (Premium.start d)))) ->
         Premium.lookup_call ev = false).
Proof.
  intros Hget. split.
  - intros w venue_list ev Hset.
    pose proof (@enrich_keeps_settled w venue_list name info Hset
                  (Enrich.start d)) as H.
    destruct (Enrich.main w venue_list (Enrich.start d)) as [[a | e |] s];
      apply H; (split; [exact Hget | intros ev' []]).
  - intros w ev Hset.
    pose proof (@premium_keeps_settled w name info Hset (Premium.start d)) as H.
    destruct (Premium.main w (Premium.start d)) as [[a | e |] s];
      apply H; (split; [exact Hget | intros ev' []]).
Qed.

(** A record that holds 'Missing' in every column (the checkin was deleted)
    is requested by neither pass. *)
Lemma settled_records_not_requested_witness :
  (forall ev,
      In ("The Pub", ev)
         (Enrich.log
            (snd (Enrich.main search_finds_pub
                    [("The Pub", "https://untappd.com/user/a/checkin/1")]
                    (Enrich.start [("The Pub", pub_deleted)])))) ->
      Enrich.upstream ev = false)
  /\ (forall ev,
         In ("The Pub", ev)
            (Premium.log
               (snd (Premium.main details_down
                       (Premium.start [("The Pub", pub_deleted)])))) ->
         Premium.lookup_call ev = false).
Proof.
  split; intros ev.
  - apply (proj1 (@settled_records_not_requested [("The Pub", pub_deleted)]
                    "The Pub" pub_deleted eq_refl)).
    reflexivity.
  - apply (proj2 (@settled_records_not_requested [("The Pub", pub_deleted)]
                    "The Pub" pub_deleted eq_refl)).
    reflexivity.
Defined.

Lemma idle_closed (d : Registry.t) (n : string) :
  enrich_closed n true (enrich_idle d).
Proof.
  intros s s' [Hd Hl] Ht.
  destruct Ht as [s ev Hq | s t | s | s b Hq | s i Hq]; try discriminate;
    split; auto.
  cbn. intros e Hin. apply in_app_or in Hin.
  destruct Hin as [Hin | [<- | []]]; auto.
Qed.

Lemma idle_for_venues (w : Enrich.world) (d : Registry.t)
      (venue_list : list (string * string)) :
  (forall venue, In venue venue_list ->
                 exists info, Dict.get d (fst venue) = Some info
                              /\ enrich_settled info = true) ->
  triple (enrich_idle d) (Enrich.for_venues w venue_list)
         (fun _ => enrich_idle d)
         (fun s => enrich_idle d s
                   /\ exists venue info,
                       In venue venue_list
                       /\ Dict.get d (fst venue) = Some info
                       /\ nth_error info 1 = None).
Proof.
  induction venue_list as [|venue rest IH]; intros H; cbn [Enrich.for_venues].
  - now apply triple_ret.
  - destruct (H venue (or_introl eq_refl)) as (info & Hget & Hset).
    eapply triple_bind with (R := fun f s => enrich_idle d s /\ f = Enrich.Next).
    + eapply triple_weaken.
      * apply (@iteration_settled w (fst venue) (enrich_idle d) info);
          [apply idle_closed | intros s [<- _]; exact Hget | exact Hset
           | reflexivity].
      * auto.
      * auto.
      * intros s [Hs Hn]. split; [exact Hs|].
        exists venue, info. repeat split; auto. now left.
    + intros f. destruct f.
      * eapply triple_weaken.
        -- apply IH. intros v Hv. apply H. now right.
        -- now intros s [Hs _].
        -- auto.
        -- intros s [Hs (v & i & Hv & Hi)]. split; [exact Hs|].
           exists v, i. split; [now right | exact Hi].
      * intros s [_ Hf]. discriminate Hf.
Qed.

(** C7: when every venue of the list has a record with an Untappd url and
    no empty cell, a run sends nothing to Untappd or Foursquare and leaves
    the registry as it was; when these records also have their url columns,
    the run ends normally. *)
Theorem resolved_registry_no_upstream_calls
        (w : Enrich.world) (d : Registry.t)
        (venue_list : list (string * string)) :
  (forall venue, In venue venue_list ->
                 exists info, Dict.get d (fst venue) = Some info
                              /\ enrich_settled info = true) ->
  Enrich.venue_dict (snd (Enrich.main w venue_list (Enrich.start d))) = d
  /\ (forall e,
         In e (Enrich.log (snd (Enrich.main w venue_list (Enrich.start d)))) ->
         Enrich.upstream (snd e) = false)
  /\ ((forall venue info, In venue venue_list ->
                          Dict.get d (fst venue) = Some info ->
                          nth_error info 1 <> None) ->
      fst (Enrich.main w venue_list (Enrich.start d)) = Ok tt).
Proof.
  intros H.
  assert (H0 : enrich_idle d (enrich_loop_start w (Enrich.start d))).
  { split; [reflexivity|]. cbn. intros e [<- | []]. reflexivity. }
  pose proof (@idle_for_venues w d venue_list H _ H0) as T.
  rewrite main_unfold.
  assert (Hsave : forall s1, enrich_idle d s1 -> enrich_idle d (enrich_saved s1)).
  { intros s1 [Hd Hl]. split; [exact Hd|]. cbn.
    intros e Hin. apply in_app_or in Hin.
    destruct Hin as [Hin | [<- | []]]; auto. }
  destruct (Enrich.for_venues w venue_list (enrich_loop_start w (Enrich.start d)))
    as [[[] | e |] s1].
  - destruct (Hsave s1 T) as [Hd Hl]. repeat split; auto.
  - destruct T as [Hs (v & i & Hv & Hi & Hn)].
    assert (Hres : enrich_idle d
                     (snd (match e with
                           | KeyboardInterrupt => (Ok tt, enrich_saved s1)
                           | _ => (@Raise unit e, s1)
                           end))).
    { destruct e; cbn; auto. }
    destruct Hres as [Hd Hl].
    destruct e; cbn in *; repeat split; auto;
      intros Hlen; exfalso; now apply (Hlen v i Hv Hi).
  - destruct T as [Hs (v & i & Hv & Hi & Hn)]. destruct Hs as [Hd Hl].
    repeat split; auto.
    intros Hlen; exfalso; now apply (Hlen v i Hv Hi).
Qed.

(** A registry with one resolved venue: the run only reads the clock and
    saves. *)
Lemma resolved_registry_no_upstream_calls_witness :
  Enrich.venue_dict
    (snd (Enrich.main search_finds_pub
            [("The Pub", "https://untappd.com/user/a/checkin/1")]
            (Enrich.start [("The Pub", pub_resolved)])))
  = [("The Pub", pub_resolved)]
  /\ (forall e,
         In e (Enrich.log
                 (snd (Enrich.main search_finds_pub
                         [("The Pub", "https://untappd.com/user/a/checkin/1")]
                         (Enrich.start [("The Pub", pub_resolved)])))) ->
         Enrich.upstream (snd e) = false)
  /\ fst (Enrich.main search_finds_pub
            [("The Pub", "https://untappd.com/user/a/checkin/1")]
            (Enrich.start [("The Pub", pub_resolved)]))
     = Ok tt.
Proof.
  assert (H : forall venue,
             In venue [("The Pub", "https://untappd.com/user/a/checkin/1")] ->
             exists info,
               Dict.get [("The Pub", pub_resolved)] (fst venue) = Some info
               /\ enrich_settled info = true).
  { intros venue [<- | []]. exists pub_resolved. split; reflexivity. }
  destruct (@resolved_registry_no_upstream_calls search_finds_pub
              [("The Pub", pub_resolved)]
              [("The Pub", "https://untappd.com/user/a/checkin/1")] H)
    as (H1 & H2 & H3).
  repeat split; auto.
Defined.

(** ** The registry file and the final save *)

Lemma comprehension_nodup (venue_list : list (list string)) :
  forall d d' : Registry.t,
    NoDup (Dict.keys d) ->
    Registry.comprehension venue_list d = Ok d' ->
    NoDup (Dict.keys d').
Proof.
  induction venue_list as [|row rest IH]; intros d d' Hd; cbn.
  - intros H. inversion H. now subst.
  - destruct row as [|venue data]; [discriminate|].
    apply IH. now apply dict_set_nodup.
Qed.

Lemma read_csv_nodup (venue_list : list (list string)) (d : Registry.t) :
  Registry.read_csv_to_dict venue_list = Ok d -> NoDup (Dict.keys d).
Proof.
  unfold Registry.read_csv_to_dict.
  destruct venue_list as [|[|venue data] rest].
  - intros H. inversion H. constructor.
  - intros H. inversion H. constructor.
  - apply comprehension_nodup. constructor.
Qed.

Lemma dict_get_in {V : Type} (d : Dict.t V) (k : string) (v : V) :
  NoDup (Dict.keys d) -> (Dict.get d k = Some v <-> In (k, v) d).
Proof.
  induction d as [|[k' v'] d IH]; cbn; intros Hd.
  - split; [discriminate | intros []].
  - inversion Hd as [|x l Hnotin Hd']; subst.
    destruct (String.eqb_spec k k') as [<- | Hk].
    + split.
      * intros H. inversion H. now left.
      * intros [H | H]; [now inversion H|].
        exfalso. apply Hnotin. unfold Dict.keys.
        change k with (fst (k, v)). now apply in_map.
    + rewrite (IH Hd'). split; [now right|].
      intros [H | H]; [inversion H; congruence | exact H].
Qed.

Lemma unique_keys_closed (n : string) : enrich_closed n false unique_keys.
Proof.
  intros s s' Hs Ht. unfold unique_keys in *.
  destruct Ht as [s ev Hq | s t | s | s b Hq | s i Hq]; cbn; auto.
  now apply dict_set_nodup.
Qed.

Lemma for_venues_unique_keys (w : Enrich.world)
      (venue_list : list (string * string)) :
  keeps unique_keys (Enrich.for_venues w venue_list).
Proof.
  apply for_venues_keeps. intros venue _.
  apply (@iteration_any w (fst venue) unique_keys);
    [apply unique_keys_closed | reflexivity].
Qed.

Lemma table_rows (d : Registry.t) (name : string) (info : list pyval) :
  In (PStr name :: info) (Registry.write_dict_to_csv d) <-> In (name, info) d.
Proof.
  unfold Registry.write_dict_to_csv. rewrite in_map_iff. split.
  - intros ([k i] & E & Hin). cbn in E. inversion E. now subst.
  - intros Hin. now exists (name, info).
Qed.

Lemma table_names (d : Registry.t) :
  map (hd PNone) (Registry.write_dict_to_csv d) = map PStr (Dict.keys d).
Proof.
  unfold Registry.write_dict_to_csv, Dict.keys. rewrite !map_map.
  reflexivity.
Qed.

Lemma nodup_names (names : list string) :
  NoDup names -> NoDup (map PStr names).
Proof.
  induction 1 as [|x l Hx Hl IH]; cbn; constructor; [|exact IH].
  rewrite in_map_iff. intros (y & E & Hy). inversion E. now subst.
Qed.

(** C9: when the loop ends in a state [s_loop] -- the list exhausted, the
    loop left by [break], or a KeyboardInterrupt raised anywhere inside it --
    [main] returns normally and its last action is one upload of the
    registry as [s_loop] holds it: every record of [s_loop] is a row of the
    uploaded table, every row is such a record, and no venue name has two
    rows. *)
Theorem final_save_persists_loop_state
        (w : Enrich.world) (venue_list : list (string * string))
        (file : list (list string)) (d : Registry.t)
        (stop : result unit) (s_loop : Enrich.state) :
  Registry.read_csv_to_dict file = Ok d ->
  Enrich.for_venues w venue_list (enrich_loop_start w (Enrich.start d))
  = (stop, s_loop) ->
  stop = Ok tt \/ stop = Raise KeyboardInterrupt ->
  Enrich.main w venue_list (Enrich.start d) = (Ok tt, enrich_saved s_loop)
  /\ Enrich.log (enrich_saved s_loop)
     = (Enrich.log s_loop
        ++ [(Enrich.current s_loop,
             Enrich.Upload
               (Registry.write_dict_to_csv (Enrich.venue_dict s_loop)))])%list
  /\ (forall name info,
         Dict.get (Enrich.venue_dict s_loop) name = Some info
         <-> In (PStr name :: info)
                (Registry.write_dict_to_csv (Enrich.venue_dict s_loop)))
  /\ NoDup (map (hd PNone)
                (Registry.write_dict_to_csv (Enrich.venue_dict s_loop))).
Proof.
  intros Hread Hloop Hstop.
  assert (Hu : unique_keys s_loop).
  { pose proof (@for_venues_unique_keys w venue_list
                  (enrich_loop_start w (Enrich.start d))) as H.
    rewrite Hloop in H.
    assert (H0 : unique_keys (enrich_loop_start w (Enrich.start d)))
      by (apply (read_csv_nodup _ Hread)).
    specialize (H H0). now destruct stop. }
  split; [|split; [reflexivity|split]].
  - rewrite main_unfold, Hloop.
    destruct Hstop as [-> | ->]; reflexivity.
  - intros name info. rewrite table_rows. now apply dict_get_in.
  - rewrite table_names.
    now apply nodup_names.
Qed.

Lemma stopped_loop_eq :
  Enrich.for_venues stopped_at_untappd pub_then_taproom
    (enrich_loop_start stopped_at_untappd
       (Enrich.start [("The Pub", pub_scraped)]))
  = stopped_loop.
Proof. vm_compute. reflexivity. Qed.

(** A run stopped by the operator while the second venue is fetched: the
    first venue, resolved before the stop, is in the table that is saved. *)
Lemma final_save_persists_loop_state_witness :
  fst stopped_loop = Raise KeyboardInterrupt
  /\ Enrich.main stopped_at_untappd pub_then_taproom
       (Enrich.start [("The Pub", pub_scraped)])
     = (Ok tt, enrich_saved (snd stopped_loop))
  /\ In [PStr "The Pub"; PStr "https://untappd.com/v/the-pub/1";
         PStr "https://foursquare.com/v/4b5"; PStr "1 Main St, Philadelphia";
         PNum (QArith_base.Qmake 401234 10000);
         PNum (QArith_base.Qmake (-752345) 10000);
         PStr "Bar"; PBool true]
        (Registry.write_dict_to_csv (Enrich.venue_dict (snd stopped_loop))).
Proof.
  assert (Hread : Registry.read_csv_to_dict pub_file
                  = Ok [("The Pub", pub_scraped)]) by reflexivity.
  assert (Hloop : Enrich.for_venues stopped_at_untappd pub_then_taproom
                    (enrich_loop_start stopped_at_untappd
                       (Enrich.start [("The Pub", pub_scraped)]))
                  = (fst stopped_loop, snd stopped_loop))
    by (rewrite stopped_loop_eq; reflexivity).
  assert (Hstop : fst stopped_loop = Ok tt
                  \/ fst stopped_loop = Raise KeyboardInterrupt)
    by (right; reflexivity).
  destruct (@final_save_persists_loop_state _ _ _ _ _ _ Hread Hloop Hstop)
    as (H1 & _ & H3 & _).
  split; [reflexivity|]. split; [exact H1|].
  apply H3. vm_compute. reflexivity.
Defined.

(** C2 fails in the premium pass.  The details request for the first venue
    is turned away with status 500, yet the pass goes on and sends the
    request for the second venue: the test that should leave the loop reads
    column 3 of the record, the latitude, where the failure sentinel stands
    in column 2. *)
Theorem premium_breaker_misses_transient_failure :
  Premium.foursquare details_down [] "4b5"
  = Answered 500 {| Foursquare.venue_location := None;
                    Foursquare.venue_categories := None |}
  /\ fst (Premium.main details_down (Premium.start two_missing)) = Ok tt
  /\ map snd
       (filter (fun e => Premium.lookup_call (snd e))
          (Premium.log
             (snd (Premium.main details_down (Premium.start two_missing)))))
     = [Premium.VenueDetails "4b5"; Premium.VenueDetails "5c6"]
  /\ Dict.get (Premium.venue_dict
                 (snd (Premium.main details_down (Premium.start two_missing))))
              "The Pub"
     = Some pub_missing.
Proof.
  repeat split; vm_compute; reflexivity.
Qed.

(* ================================================================== *)
(** * Further properties of the code *)

(** ** Polling the same feed window again *)

Lemma nothing_above (py_int : string -> result Z) (stored : Z)
      (posts : list Update.post) :
  (forall x, In x (Update.ids_above py_int stored posts) -> False) ->
  Update.ids_above py_int stored posts = [].
Proof.
  destruct (Update.ids_above py_int stored posts) as [|x l]; [reflexivity|].
  intros H. destruct (H x). now left.
Qed.

Lemma ids_above_mono (py_int : string -> result Z) (w w1 : Z)
      (posts : list Update.post) (x : Z) :
  (w <= w1)%Z ->
  In x (Update.ids_above py_int w1 posts) ->
  In x (Update.ids_above py_int w posts).
Proof.
  intros Hle. unfold Update.ids_above. rewrite !in_flat_map.
  intros (p & Hp & Hx). exists p. split; [exact Hp|].
  unfold Update.above in *.
  destruct (Update.post_id py_int p) as [i | |]; try contradiction.
  destruct (i >? w1)%Z eqn:E1; [|contradiction].
  destruct Hx as [<- | []].
  destruct (i >? w)%Z eqn:E; [now left | lia].
Qed.

Lemma written_completed (puts : list Update.event) (m : Z) :
  Update.written (Update.GetLastUpdate :: puts ++ [Update.PutLastUpdate m])
  = Update.written puts.
Proof.
  unfold Update.written. cbn. rewrite flat_map_app. cbn.
  apply app_nil_r.
Qed.

(** After a run that completed, the same entries delivered again are all
    at or below the stored id: the next run, whether it completes or
    raises, writes no post and leaves the stored id as it is. *)
Theorem repolling_same_window_writes_nothing
        (py_int : string -> result Z) (w : Z)
        (first again : list Update.event -> option exn)
        (posts : list Update.post)
        (Hcompleted :
           fst (Update.run py_int w
                  {| Update.faults := first; Update.posts := posts |})
           = Ok tt) :
  let w1 :=
    Update.stored_after w
      (snd (Update.run py_int w
              {| Update.faults := first; Update.posts := posts |})) in
  Update.written
    (snd (Update.run py_int w1
            {| Update.faults := again; Update.posts := posts |}))
  = []
  /\ Update.stored_after w1
       (snd (Update.run py_int w1
               {| Update.faults := again; Update.posts := posts |}))
     = w1.
Proof.
  intros w1.
  set (d1 := {| Update.faults := first; Update.posts := posts |}) in *.
  set (d2 := {| Update.faults := again; Update.posts := posts |}).
  destruct (run_stored py_int w d1) as [Hle Hmax].
  destruct (run_written py_int w d1) as (rest & Hids & Hrest).
  rewrite (Hrest Hcompleted), app_nil_r in Hids.
  assert (Hnone : Update.ids_above py_int w1 posts = []).
  { apply nothing_above. intros x Hx.
    pose proof (ids_above_gt _ _ _ _ Hx) as Hgt.
    apply (ids_above_mono py_int posts x Hle) in Hx.
    change posts with (Update.posts d1) in Hx. rewrite Hids in Hx.
    specialize (Hmax Hcompleted x Hx). fold w1 in Hmax. lia. }
  destruct (run_written py_int w1 d2) as (rest2 & Hids2 & _).
  change (Update.posts d2) with posts in Hids2. rewrite Hnone in Hids2.
  symmetry in Hids2. apply app_eq_nil in Hids2. destruct Hids2 as [Hw _].
  split; [exact Hw|].
  unfold Update.run in *.
  destruct (Update.main py_int (Update.faults d2) w1 (Update.posts d2) [])
    as [r log] eqn:R.
  destruct (@main_spec py_int _ _ _ _ _ R)
    as (puts & tail & Hputs & _ & [(-> & -> & ->) | (_ & [-> | ->])]);
    cbn [snd] in *.
  - cbn [Update.stored_after]. rewrite (stored_after_puts _ Hputs). cbn.
    rewrite written_completed in Hw. now rewrite Hw.
  - reflexivity.
  - cbn [Update.stored_after].
    now rewrite <- (app_nil_r puts), (stored_after_puts _ Hputs).
Qed.

Lemma repolling_same_window_writes_nothing_witness :
  Update.written
    (snd (Update.run decimal
            (Update.stored_after 5
               (snd (Update.run decimal 5
                       {| Update.faults := store_up;
                          Update.posts := [checkin_7; checkin_9] |})))
            {| Update.faults := store_up;
               Update.posts := [checkin_7; checkin_9] |}))
  = []
  /\ Update.stored_after
       (Update.stored_after 5
          (snd (Update.run decimal 5
                  {| Update.faults := store_up;
                     Update.posts := [checkin_7; checkin_9] |})))
       (snd (Update.run decimal
               (Update.stored_after 5
                  (snd (Update.run decimal 5
                          {| Update.faults := store_up;
                             Update.posts := [checkin_7; checkin_9] |})))
               {| Update.faults := store_up;
                  Update.posts := [checkin_7; checkin_9] |}))
     = Update.stored_after 5
         (snd (Update.run decimal 5
                 {| Update.faults := store_up;
                    Update.posts := [checkin_7; checkin_9] |})).
Proof.
  apply (@repolling_same_window_writes_nothing decimal 5 store_up store_up
           [checkin_7; checkin_9]).
  vm_compute. reflexivity.
Defined.

(** ** The venue list kept by the parsing run *)

Lemma existsb_eqb_in (x : string) (l : list string) :
  existsb (String.eqb x) l = true <-> In x l.
Proof.
  rewrite existsb_exists. split.
  - intros [y [Hy E]]. apply String.eqb_eq in E. now subst.
  - intros H. exists x. split; [exact H | apply String.eqb_refl].
Qed.

Lemma existsb_eqb_not_in (x : string) (l : list string) :
  existsb (String.eqb x) l = false <-> ~ In x l.
Proof.
  rewrite <- existsb_eqb_in. destruct (existsb (String.eqb x) l); split;
    intros H; try reflexivity; try discriminate; try congruence;
    exfalso; now apply H.
Qed.

Lemma new_venue_rows_spec (venue_list : list string)
      (new_venues : list (string * string)) :
  forall seen,
    let added := Parse.new_venue_rows venue_list seen new_venues in
    NoDup (map fst added)
    /\ (forall v, In v added ->
                  ~ In (fst v) venue_list /\ ~ In (fst v) seen
                  /\ In v new_venues)
    /\ (forall v, In v new_venues ->
                  In (fst v) venue_list \/ In (fst v) seen
                  \/ In (fst v) (map fst added)).
Proof.
  induction new_venues as [|v rest IH]; intros seen; cbn zeta.
  - cbn. split; [constructor | split; intros v []].
  - cbn [Parse.new_venue_rows].
    destruct (existsb (String.eqb (fst v)) venue_list) eqn:E1; cbn [negb andb].
    + destruct (IH seen) as (Hn & Hin & Hall).
      split; [exact Hn|]. split.
      * intros x Hx. destruct (Hin x Hx) as (? & ? & ?). repeat split; auto.
        now right.
      * intros x [<- | Hx]; [left; now apply existsb_eqb_in | now apply Hall].
    + destruct (existsb (String.eqb (fst v)) seen) eqn:E2; cbn [negb].
      * destruct (IH seen) as (Hn & Hin & Hall).
        split; [exact Hn|]. split.
        -- intros x Hx. destruct (Hin x Hx) as (? & ? & ?). repeat split; auto.
           now right.
        -- intros x [<- | Hx];
             [right; left; now apply existsb_eqb_in | now apply Hall].
      * destruct (IH (seen ++ [fst v])%list) as (Hn & Hin & Hall).
        apply existsb_eqb_not_in in E1. apply existsb_eqb_not_in in E2.
        split; [|split].
        -- cbn. constructor; [|exact Hn].
           intros Hv. apply in_map_iff in Hv. destruct Hv as [x [Ex Hx]].
           destruct (Hin x Hx) as (_ & Hs & _). apply Hs.
           apply in_or_app. right. left. now symmetry.
        -- intros x [<- | Hx]; [repeat split; auto; now left|].
           destruct (Hin x Hx) as (H1 & H2 & H3). repeat split; auto.
           ++ intros H. apply H2. apply in_or_app. now left.
           ++ now right.
        -- intros x [<- | Hx]; [right; right; now left|].
           destruct (Hall x Hx) as [H | [H | H]]; [now left | | ].
           ++ apply in_app_or in H. destruct H as [H | [H | []]];
                [right; now left | right; right; left; exact H].
           ++ right; right; now right.
Qed.

Lemma first_cells_blank (data : list (list string)) :
  In [] data -> Parse.first_cells data = Raise IndexError.
Proof.
  induction data as [|row rest IH]; intros Hin; [contradiction|].
  cbn [Parse.first_cells]. destruct row as [|cell cells]; [reflexivity|].
  destruct Hin as [E | Hin]; [discriminate|].
  cbn. now rewrite (IH Hin).
Qed.

Lemma first_cells_full (data : list (list string)) :
  ~ In [] data -> Parse.first_cells data = Ok (map (hd "") data).
Proof.
  induction data as [|row rest IH]; intros Hno; [reflexivity|].
  cbn [Parse.first_cells]. destruct row as [|cell cells].
  - exfalso. apply Hno. now left.
  - cbn. rewrite IH; [reflexivity|]. intros H. apply Hno. now right.
Qed.

(** [append_to_venues] writes after the text the venue file holds, and
    changes nothing in that text.  On a file in which [csv.reader] finds a
    header and data rows that are not blank, it writes one line for each
    venue to add: these come from new rows with a venue, carry names that
    are neither first cells of the data rows nor repeated, and every venue
    named by a new row is a first cell of a data row or one of them.  On a
    file without a row [next(data)] raises StopIteration, and a blank data
    row raises IndexError. *)
Theorem append_to_venues_adds_each_new_venue_once
        (csv_reader : string -> list (list string))
        (csv_line : list string -> string)
        (venue_text : string) (rows : list Parse.row) :
  (csv_reader venue_text = [] ->
   Parse.append_to_venues csv_reader csv_line venue_text rows
   = Raise StopIteration)
  /\ (forall header data,
         csv_reader venue_text = header :: data ->
         In [] data ->
         Parse.append_to_venues csv_reader csv_line venue_text rows
         = Raise IndexError)
  /\ (forall header data,
         csv_reader venue_text = header :: data ->
         ~ In [] data ->
         exists added,
           Parse.append_to_venues csv_reader csv_line venue_text rows
           = Ok (venue_text
                 ++ String.concat ""
                      (map (fun v => csv_line [fst v; snd v]) added))
           /\ NoDup (map fst added)
           /\ (forall v, In v added ->
                         ~ In (fst v) (map (hd "") data)
                         /\ fst v <> ""
                         /\ exists r, In r rows
                                      /\ v = (Parse.venue r, Parse.url r))
           /\ (forall r, In r rows -> Parse.venue r <> "" ->
                         In (Parse.venue r) (map (hd "") data)
                         \/ In (Parse.venue r) (map fst added))).
Proof.
  unfold Parse.append_to_venues. split; [|split].
  - intros ->. reflexivity.
  - intros header data -> Hblank. now rewrite (first_cells_blank _ Hblank).
  - intros header data -> Hfull. rewrite (first_cells_full _ Hfull).
    cbn [rbind].
    destruct (new_venue_rows_spec (map (hd "") data) (Parse.new_venues rows) [])
      as (Hn & Hin & Hall).
    cbn zeta in *.
    set (added := Parse.new_venue_rows (map (hd "") data) []
                                       (Parse.new_venues rows)) in *.
    assert (Hsrc : forall v, In v (Parse.new_venues rows) ->
                             fst v <> ""
                             /\ exists r, In r rows
                                          /\ v = (Parse.venue r, Parse.url r)).
    { intros v Hv. unfold Parse.new_venues in Hv.
      apply in_map_iff in Hv. destruct Hv as [r [<- Hr]].
      apply filter_In in Hr. destruct Hr as [Hr Hne]. split.
      - cbn. intros E. rewrite E in Hne. discriminate.
      - now exists r. }
    exists added. split; [reflexivity|]. split; [exact Hn|]. split.
    + intros v Hv. destruct (Hin v Hv) as (H1 & _ & H3).
      destruct (Hsrc v H3) as [H4 H5]. auto.
    + intros r Hr Hne.
      assert (Hv : In (Parse.venue r, Parse.url r) (Parse.new_venues rows)).
      { unfold Parse.new_venues. apply in_map_iff. exists r.
        split; [reflexivity|].
        apply filter_In. split; [exact Hr|].
        destruct (String.eqb (Parse.venue r) "") eqn:E; [|reflexivity].
        apply String.eqb_eq in E. contradiction. }
      destruct (Hall _ Hv) as [H | [[] | H]]; [now left | now right].
Qed.

(** ** Cursors for breweries added to the configuration *)

Lemma default_ids (breweries : list string) :
  forall (ids : Dict.t string) (b : string),
    Dict.get
      (fold_left (fun ids brewery =>
                    if Dict.mem ids brewery then ids
                    else Dict.set ids brewery "")
                 breweries ids) b
    = match Dict.get ids b with
      | Some i => Some i
      | None => if existsb (String.eqb b) breweries then Some "" else None
      end.
Proof.
  induction breweries as [|x rest IH]; intros ids b; cbn [fold_left existsb].
  - now destruct (Dict.get ids b).
  - rewrite IH. unfold Dict.mem.
    destruct (Dict.get ids x) eqn:Ex.
    + destruct (Dict.get ids b) eqn:Eb; [reflexivity|].
      destruct (String.eqb b x) eqn:E; [|reflexivity].
      apply String.eqb_eq in E. subst. congruence.
    + rewrite dict_get_set.
      destruct (String.eqb b x) eqn:E.
      * apply String.eqb_eq in E. subst. now rewrite Ex.
      * now destruct (Dict.get ids b).
Qed.

(** When last_parsed.json is read, [get_last_parsed_ids] leaves every stored
    cursor as it is, gives each configured brewery without one the empty
    cursor, and adds no other key. *)
Theorem missing_cursors_default_to_empty
        (w : Parse.world) (breweries : list string) (s : Parse.state)
        (Hread : Parse.fault w (Parse.log s) = None) :
  fst (Parse.get_last_parsed_ids w breweries s) = Ok tt
  /\ forall b,
      Dict.get (Parse.last_parsed_ids
                  (snd (Parse.get_last_parsed_ids w breweries s))) b
      = match Dict.get (Parse.last_parsed_json w (Parse.log s)) b with
        | Some i => Some i
        | None => if existsb (String.eqb b) breweries then Some "" else None
        end.
Proof.
  unfold Parse.get_last_parsed_ids, bind, Parse.call, modify.
  rewrite Hread. cbn. split; [reflexivity|].
  intros b. apply default_ids.
Qed.

Lemma missing_cursors_default_to_empty_witness :
  fst (Parse.get_last_parsed_ids one_new_post ["68"; "70"] Parse.initial)
  = Ok tt
  /\ forall b,
      Dict.get (Parse.last_parsed_ids
                  (snd (Parse.get_last_parsed_ids one_new_post ["68"; "70"]
                          Parse.initial))) b
      = match Dict.get (Parse.last_parsed_json one_new_post
                          (Parse.log Parse.initial)) b with
        | Some i => Some i
        | None => if existsb (String.eqb b) ["68"; "70"] then Some "" else None
        end.
Proof.
  apply (@missing_cursors_default_to_empty one_new_post ["68"; "70"]
           Parse.initial).
  reflexivity.
Defined.

(** ** Reading and writing venue_locations.csv *)

Lemma dict_set_absent {V : Type} (d : Dict.t V) (k : string) (v : V) :
  ~ In k (Dict.keys d) -> Dict.set d k v = (d ++ [(k, v)])%list.
Proof.
  induction d as [|[k' v'] d IH]; cbn; intros H; [reflexivity|].
  destruct (String.eqb_spec k k') as [-> | Hk].
  - exfalso. apply H. now left.
  - f_equal. apply IH. intros Hin. apply H. now right.
Qed.

Lemma comprehension_unique (venue_list : list (list string)) :
  forall d : Registry.t,
    (forall row, In row venue_list -> row <> []) ->
    NoDup (Dict.keys d ++ map (hd "") venue_list) ->
    Registry.comprehension venue_list d
    = Ok (d ++ map (fun row => (hd "" row, map PStr (tl row))) venue_list)%list.
Proof.
  induction venue_list as [|row rest IH]; intros d Hne Hnd; cbn.
  - now rewrite app_nil_r.
  - destruct row as [|venue data]; [now destruct (Hne [] (or_introl eq_refl))|].
    cbn in *.
    assert (Hv : ~ In venue (Dict.keys d)).
    { intros Hin. apply NoDup_remove_2 in Hnd. apply Hnd.
      apply in_or_app. now left. }
    rewrite (@dict_set_absent _ _ _ (map PStr data) Hv).
    rewrite IH.
    + now rewrite <- app_assoc.
    + intros r Hr. apply Hne. now right.
    + unfold Dict.keys in *. rewrite map_app, <- app_assoc. exact Hnd.
Qed.

(** A file of venue rows without blank rows and with unique venue names is
    read into a registry that is written back as the same rows, in the same
    order. *)
Theorem registry_file_round_trip (venue_list : list (list string))
        (Hrows : forall row, In row venue_list -> row <> [])
        (Hnames : NoDup (map (hd "") venue_list)) :
  exists d,
    Registry.read_csv_to_dict venue_list = Ok d
    /\ Registry.write_dict_to_csv d = map (map PStr) venue_list.
Proof.
  exists (map (fun row => (hd "" row, map PStr (tl row))) venue_list).
  split.
  - destruct venue_list as [|first rest]; [reflexivity|].
    destruct first as [|venue data];
      [now destruct (Hrows [] (or_introl eq_refl))|].
    unfold Registry.read_csv_to_dict.
    now rewrite (@comprehension_unique _ [] Hrows Hnames).
  - unfold Registry.write_dict_to_csv. rewrite map_map.
    apply map_ext_in. intros row Hrow. cbn.
    destruct row as [|venue data]; [now destruct (Hrows [] Hrow)|].
    reflexivity.
Qed.

Lemma registry_file_round_trip_witness :
  exists d,
    Registry.read_csv_to_dict pub_then_taproom_rows = Ok d
    /\ Registry.write_dict_to_csv d = map (map PStr) pub_then_taproom_rows.
Proof.
  apply (@registry_file_round_trip pub_then_taproom_rows).
  - intros row [<- | [<- | []]]; discriminate.
  - repeat constructor; cbn; intuition discriminate.
Defined.

Lemma comprehension_blank_row (venue_list : list (list string)) :
  In [] venue_list ->
  forall d, Registry.comprehension venue_list d = Raise ValueError.
Proof.
  induction venue_list as [|row rest IH]; intros Hin d; [contradiction|].
  destruct row as [|venue data]; [reflexivity|].
  cbn. apply IH. destruct Hin as [E | Hin]; [discriminate | exact Hin].
Qed.

(** A blank first row makes [read_csv_to_dict] return the empty registry,
    whatever rows follow; a blank row after a first row that is not blank
    makes it raise ValueError. *)
Theorem blank_rows_empty_or_abort_the_registry :
  (forall rest, Registry.read_csv_to_dict ([] :: rest) = Ok [])
  /\ (forall venue data rest,
         In [] rest ->
         Registry.read_csv_to_dict ((venue :: data) :: rest)
         = Raise ValueError).
Proof.
  split; [reflexivity|].
  intros venue data rest Hin. unfold Registry.read_csv_to_dict.
  apply comprehension_blank_row. now right.
Qed.

Lemma find_snoc (A : Type) (p : A -> bool) (l : list A) (x : A) :
  find p (l ++ [x])
  = match find p l with
    | Some y => Some y
    | None => if p x then Some x else None
    end.
Proof.
  induction l as [|a l IH]; cbn; [reflexivity|].
  now destruct (p a).
Qed.

Lemma comprehension_last_row (venue_list : list (list string)) :
  (forall row, In row venue_list -> row <> []) ->
  forall d : Registry.t,
  exists d',
    Registry.comprehension venue_list d = Ok d'
    /\ forall k,
        Dict.get d' k
        = match find (fun row => String.eqb k (hd "" row)) (rev venue_list) with
          | Some row => Some (map PStr (tl row))
          | None => Dict.get d k
          end.
Proof.
  induction venue_list as [|row rest IH]; intros Hne d.
  - exists d. split; reflexivity.
  - destruct row as [|venue data]; [now destruct (Hne [] (or_introl eq_refl))|].
    destruct (IH (fun r Hr => Hne r (or_intror Hr))
                 (Dict.set d venue (map PStr data))) as [d' [Hd' Hget]].
    exists d'. split; [exact Hd'|].
    intros k. rewrite Hget. cbn [rev]. rewrite find_snoc.
    destruct (find _ (rev rest)); [reflexivity|].
    rewrite dict_get_set. cbn. now destruct (String.eqb k venue).
Qed.

(** Where a venue name stands on several rows of the file, the registry read
    from it holds the data of the last of them; a name on no row has no
    record. *)
Theorem registry_holds_last_row_of_a_name (venue_list : list (list string))
        (Hrows : forall row, In row venue_list -> row <> []) :
  exists d,
    Registry.read_csv_to_dict venue_list = Ok d
    /\ forall k,
        Dict.get d k
        = match find (fun row => String.eqb k (hd "" row)) (rev venue_list) with
          | Some row => Some (map PStr (tl row))
          | None => None
          end.
Proof.
  destruct venue_list as [|first rest].
  - exists []. split; reflexivity.
  - destruct first as [|venue data];
      [now destruct (Hrows [] (or_introl eq_refl))|].
    destruct (@comprehension_last_row ((venue :: data) :: rest) Hrows [])
      as [d [Hd Hget]].
    exists d. split; [exact Hd | exact Hget].
Qed.

Lemma registry_holds_last_row_of_a_name_witness :
  exists d,
    Registry.read_csv_to_dict pub_listed_twice = Ok d
    /\ forall k,
        Dict.get d k
        = match find (fun row => String.eqb k (hd "" row))
                     (rev pub_listed_twice) with
          | Some row => Some (map PStr (tl row))
          | None => None
          end.
Proof.
  apply (@registry_holds_last_row_of_a_name pub_listed_twice).
  intros row [<- | [<- | []]]; discriminate.
Defined.

(** ** Splitting a title *)

Lemma str_app_assoc (a b c : string) : ((a ++ b) ++ c = a ++ (b ++ c))%string.
Proof.
  induction a as [|x a IH]; cbn; [reflexivity | now rewrite IH].
Qed.

Lemma str_app_nil (a : string) : (a ++ "" = a)%string.
Proof.
  induction a as [|x a IH]; cbn; [reflexivity | now rewrite IH].
Qed.

Lemma prefix_app (sep s : string) :
  String.prefix sep s = true -> exists rest, s = (sep ++ rest)%string.
Proof.
  revert s. induction sep as [|a sep IH]; intros s H.
  - now exists s.
  - destruct s as [|b s]; [discriminate|].
    simpl in H.
    destruct (ascii_dec a b) as [<- | _]; [|discriminate].
    destruct (IH s H) as [rest ->]. now exists rest.
Qed.

Lemma str_length_app (a b : string) :
  String.length (a ++ b) = String.length a + String.length b.
Proof.
  induction a as [|x a IH]; cbn; [reflexivity | now rewrite IH].
Qed.

Lemma split_go_skip (sep : string) (maxsplit : option nat) (p : string) :
  forall rest cur,
    PyStr.split_go sep maxsplit (String.length p) cur (p ++ rest)
    = PyStr.split_go sep maxsplit 0 cur rest.
Proof.
  induction p as [|c p IH]; intros rest cur; cbn.
  - now destruct rest.
  - apply IH.
Qed.

Lemma split_go_not_empty (sep : string) (s : string) :
  forall maxsplit skip cur, PyStr.split_go sep maxsplit skip cur s <> [].
Proof.
  induction s as [|c s IH]; intros maxsplit skip cur;
    cbn [PyStr.split_go]; [discriminate|].
  destruct skip; [|apply IH].
  destruct (PyStr.may_cut maxsplit && String.prefix sep (String c s));
    [discriminate | apply IH].
Qed.

Lemma join_cons (sep x : string) (l : list string) :
  l <> [] -> PyStr.join sep (x :: l) = (x ++ sep ++ PyStr.join sep l)%string.
Proof.
  destruct l; [congruence | reflexivity].
Qed.

Lemma join_split_go (sep : string) (n : nat) :
  sep <> "" ->
  forall s cur,
    String.length s <= n ->
    PyStr.join sep (PyStr.split_go sep None 0 cur s) = (cur ++ s)%string.
Proof.
  intros Hsep. induction n as [|n IH]; intros s cur Hlen.
  - destruct s; [cbn; now rewrite str_app_nil | cbn in Hlen; lia].
  - destruct s as [|c s]; [cbn; now rewrite str_app_nil|].
    cbn [PyStr.split_go PyStr.may_cut andb].
    destruct (String.prefix sep (String c s)) eqn:E.
    + destruct (prefix_app _ _ E) as [rest Hrest].
      destruct sep as [|a sep]; [congruence|].
      cbn in Hrest. injection Hrest as -> ->.
      cbn [String.length Nat.pred].
      rewrite split_go_skip.
      rewrite join_cons by apply split_go_not_empty.
      rewrite IH.
      * reflexivity.
      * cbn in Hlen. rewrite str_length_app in Hlen. lia.
    + rewrite IH by (cbn in Hlen; lia).
      now rewrite str_app_assoc.
Qed.

Lemma join_firstn_skipn (sep : string) (l : list string) :
  forall n,
    0 < n < List.length l ->
    (PyStr.join sep (firstn n l) ++ sep ++ PyStr.join sep (skipn n l))%string
    = PyStr.join sep l.
Proof.
  induction l as [|x l IH]; intros n [Hn Hl]; cbn in Hl; [lia|].
  destruct n as [|n]; [lia|].
  assert (Hne : l <> []) by (destruct l; [cbn in Hl; lia | discriminate]).
  cbn [firstn skipn]. rewrite (join_cons _ _ Hne).
  destruct n as [|n].
  - reflexivity.
  - assert (Hf : firstn (S n) l <> [])
      by (destruct l; [congruence | discriminate]).
    rewrite (join_cons _ _ Hf).
    rewrite !str_app_assoc. do 2 f_equal.
    apply IH. lia.
Qed.

(** [split(strng, sep, n)] loses nothing: when [sep] occurs at least [n]
    times ([n] not 0), the two parts joined by [sep] are [strng] again; when
    it occurs fewer times, the first part is all of [strng] and the second is
    empty. *)
Theorem split_at_nth_separator_loses_nothing (strng sep : string) (n : nat)
        (Hsep : sep <> "") :
  (0 < n < List.length (PyStr.split strng sep) ->
   (fst (Parse.split strng sep n) ++ sep ++ snd (Parse.split strng sep n))%string
   = strng)
  /\ (List.length (PyStr.split strng sep) <= n ->
      Parse.split strng sep n = (strng, "")).
Proof.
  assert (Hjoin : PyStr.join sep (PyStr.split strng sep) = strng).
  { unfold PyStr.split.
    now rewrite (@join_split_go sep (String.length strng) Hsep strng ""
                   (Nat.le_refl _)). }
  unfold Parse.split. cbn [fst snd]. split; intros Hn.
  - rewrite join_firstn_skipn by exact Hn. exact Hjoin.
  - rewrite firstn_all2 by exact Hn. rewrite skipn_all2 by exact Hn.
    now rewrite Hjoin.
Qed.

Lemma split_at_nth_separator_loses_nothing_witness :
  (0 < 1 < List.length (PyStr.split "a Sculpin at The Pub at Night" " at ") ->
   (fst (Parse.split "a Sculpin at The Pub at Night" " at " 1) ++ " at "
    ++ snd (Parse.split "a Sculpin at The Pub at Night" " at " 1))%string
   = "a Sculpin at The Pub at Night")
  /\ (List.length (PyStr.split "a Sculpin at The Pub at Night" " at ") <= 1 ->
      Parse.split "a Sculpin at The Pub at Night" " at " 1
      = ("a Sculpin at The Pub at Night", "")).
Proof.
  apply (@split_at_nth_separator_loses_nothing
           "a Sculpin at The Pub at Night" " at " 1).
  discriminate.
Defined.

(** ** The breaker of the enrichment loop *)

Lemma log_snoc_split (A : Type) (l : list A) (x : A)
      (asked : list A) (e : A) (later : list A) :
  (l ++ [x] = asked ++ e :: later)%list ->
  (later = [] /\ asked = l /\ e = x)
  \/ exists later', later = (later' ++ [x])%list
                    /\ l = (asked ++ e :: later')%list.
Proof.
  intros H. destruct later as [|y later0].
  - left. apply app_inj_tail in H. destruct H as [-> ->]. auto.
  - right.
    destruct (@exists_last _ (y :: later0)) as [later' [a Ha]];
      [discriminate|].
    rewrite Ha in *. clear Ha.
    change (l ++ [x] = asked ++ (e :: later') ++ [a])%list in H.
    rewrite app_assoc in H. apply app_inj_tail in H.
    destruct H as [-> ->]. now exists later'.
Qed.

Lemma quiet_not_rejected (w : Enrich.world) (asked : list Enrich.entry)
      (e : Enrich.entry) :
  Enrich.lookup_call (snd e) = false -> search_rejected w asked e = false.
Proof.
  unfold search_rejected. now destruct (snd e).
Qed.

Section Breaker.

Variable w : Enrich.world.

Lemma held_after_clean (log : list Enrich.entry) (x : Enrich.entry) :
  no_rejection w log -> breaker_held w (log ++ [x]).
Proof.
  intros Hc asked e later Heq Hrej.
  destruct (log_snoc_split _ _ _ _ _ Heq) as [(-> & _) | (later' & -> & ->)];
    [reflexivity|].
  rewrite (Hc asked e later' eq_refl) in Hrej. discriminate.
Qed.

Lemma held_snoc_quiet (log : list Enrich.entry) (x : Enrich.entry) :
  breaker_held w log -> Enrich.lookup_call (snd x) = false ->
  breaker_held w (log ++ [x]).
Proof.
  intros Hh Hx asked e later Heq Hrej.
  destruct (log_snoc_split _ _ _ _ _ Heq) as [(-> & _) | (later' & -> & ->)];
    [reflexivity|].
  rewrite existsb_app. apply Bool.orb_false_iff. split.
  - exact (Hh asked e later' eq_refl Hrej).
  - cbn. now rewrite Hx.
Qed.

Lemma clean_snoc (log : list Enrich.entry) (x : Enrich.entry) :
  no_rejection w log -> search_rejected w log x = false ->
  no_rejection w (log ++ [x]).
Proof.
  intros Hc Hx asked e later Heq.
  destruct (log_snoc_split _ _ _ _ _ Heq)
    as [(-> & -> & ->) | (later' & -> & ->)];
    [exact Hx | exact (Hc asked e later' eq_refl)].
Qed.

Lemma breaker_quiet (s : Enrich.state) (l : string) (ev : Enrich.event) :
  breaker_invariant w s -> Enrich.lookup_call ev = false ->
  breaker_invariant w (Enrich.logged l ev s).
Proof.
  intros [Hh Hc] Hev. split; cbn.
  - now apply held_snoc_quiet.
  - intros Ha. apply clean_snoc; [now apply Hc|].
    now apply quiet_not_rejected.
Qed.

Lemma breaker_answered (s : Enrich.state) (l : string) (ev : Enrich.event) :
  breaker_invariant w s -> Enrich.foursquare_available s = true ->
  search_rejected w (Enrich.log s) (l, ev) = false ->
  breaker_invariant w (Enrich.logged l ev s).
Proof.
  intros [Hh Hc] Ha Hev. split; cbn.
  - apply held_after_clean. now apply Hc.
  - intros _. apply clean_snoc; [now apply Hc | exact Hev].
Qed.

Lemma breaker_emit (ev : Enrich.event) :
  Enrich.lookup_call ev = false ->
  keeps (breaker_invariant w) (Enrich.emit ev).
Proof.
  intros Hev s Hs. unfold Enrich.emit. now apply breaker_quiet.
Qed.

Lemma breaker_set_time (t : QArith_base.Q) :
  keeps (breaker_invariant w) (modify (Enrich.set_time t)).
Proof. apply keeps_modify. intros s Hs. exact Hs. Qed.

Lemma breaker_set_venue (n : string) (info : list pyval) :
  keeps (breaker_invariant w) (modify (Enrich.set_venue n info)).
Proof. apply keeps_modify. intros s Hs. exact Hs. Qed.

Lemma breaker_set_current (n : string) :
  keeps (breaker_invariant w) (modify (Enrich.set_current n)).
Proof. apply keeps_modify. intros s Hs. exact Hs. Qed.

Hint Resolve breaker_emit breaker_set_time breaker_set_venue
     breaker_set_current : keeps.

Lemma breaker_requests_get (url : string) :
  keeps (breaker_invariant w) (Enrich.requests_get w url).
Proof. unfold Enrich.requests_get. keep. Qed.

Lemma breaker_time_sleep (ev : Enrich.event) :
  Enrich.lookup_call ev = false ->
  keeps (breaker_invariant w) (Enrich.time_sleep w ev).
Proof. intros Hev. unfold Enrich.time_sleep. keep. Qed.

Lemma breaker_time_time : keeps (breaker_invariant w) (Enrich.time_time w).
Proof. unfold Enrich.time_time. keep. Qed.

Lemma breaker_backup_data : keeps (breaker_invariant w) Enrich.backup_data.
Proof. unfold Enrich.backup_data. keep. Qed.

Hint Resolve breaker_requests_get breaker_time_sleep breaker_time_time
     breaker_backup_data : keeps.

Lemma breaker_search_untappd (url : string) :
  keeps (breaker_invariant w) (Enrich.search_untappd w url).
Proof. unfold Enrich.search_untappd. keep. Qed.

Hint Resolve breaker_search_untappd : keeps.

Lemma last5_set_last5 (info found : list pyval) :
  List.length found = 5 -> last5 (set_last5 info found) = found.
Proof.
  intros Hlen. unfold last5, set_last5.
  rewrite length_app, length_firstn, Hlen.
  replace (Nat.min (List.length info - 5) (List.length info) + 5 - 5)
    with (List.length (firstn (List.length info - 5) info))
    by (rewrite length_firstn; lia).
  rewrite skipn_app, skipn_all, Nat.sub_diag. reflexivity.
Qed.

Lemma breaker_search_foursquare (name : string) (info : list pyval) :
  triple (fun s => breaker_invariant w s
                   /\ Enrich.foursquare_available s = true)
         (Enrich.search_foursquare w name info)
         (after_search w)
         (breaker_invariant w).
Proof.
  intros s [HJ Hav].
  unfold Enrich.search_foursquare, bind, lift, ret, Enrich.emit.
  destruct (index info 1) as [venue_url | |]; try exact HJ.
  destruct (index info 3) as [latitude | |]; try exact HJ.
  destruct (index info 4) as [longitude | |]; try exact HJ.
  destruct (is_str venue_url "Missing"); [left; exact HJ|].
  destruct (id_of_url venue_url) as [venue_id | |]; try exact HJ.
  destruct (join_cells "," [latitude; longitude]) as [ll | |]; try exact HJ.
  destruct (Enrich.foursquare w (Enrich.log s) name ll)
    as [status_code venue_list | e] eqn:F.
  - destruct (negb (status_code =? 200)%Z) eqn:N.
    + right. split; [|split; reflexivity].
      cbn. apply held_after_clean. now apply HJ.
    + assert (Hok : breaker_invariant w
                      (Enrich.logged (Enrich.current s)
                                     (Enrich.SearchVenues name ll) s)).
      { apply breaker_answered; auto.
        unfold search_rejected. cbn. now rewrite F, N. }
      destruct (Enrich.first_match venue_id venue_list); left; exact Hok.
  - apply breaker_answered; auto.
    unfold search_rejected. cbn. now rewrite F.
Qed.

Lemma breaker_foursquare_and_backup (name : string) (slept : bool) :
  keeps (breaker_invariant w) (Enrich.foursquare_and_backup w name slept).
Proof.
  unfold Enrich.foursquare_and_backup.
  eapply triple_bind
    with (R := fun a s => breaker_invariant w s
                          /\ Enrich.foursquare_available s = a).
  { apply triple_gets. auto. }
  intros available.
  eapply triple_bind
    with (R := fun _ s => breaker_invariant w s
                          /\ Enrich.foursquare_available s = available).
  { apply triple_gets. auto. }
  intros d.
  eapply triple_bind
    with (R := fun wanted s =>
                 breaker_invariant w s
                 /\ (wanted = true -> Enrich.foursquare_available s = true)).
  { apply triple_lift. intros s [HJ Hav].
    destruct (Enrich.wants_foursquare available d name) as [wanted | |] eqn:W;
      try exact HJ.
    split; [exact HJ|]. intros ->.
    destruct available; [exact Hav | discriminate W]. }
  intros wanted.
  eapply triple_bind with (R := fun _ => breaker_invariant w).
  - destruct wanted; [|apply triple_ret; now intros s [HJ _]].
    eapply triple_bind
      with (R := fun _ s => breaker_invariant w s
                            /\ Enrich.foursquare_available s = true).
    { apply triple_lift. intros s [HJ Hav].
      destruct (Dict.lookup d name); auto. }
    intros info.
    eapply triple_bind with (R := after_search w).
    { apply breaker_search_foursquare. }
    intros found.
    eapply triple_bind with (R := fun _ => after_search w found).
    { apply triple_modify. intros s Hs. exact Hs. }
    intros _.
    eapply triple_bind with (R := fun _ => breaker_invariant w).
    + destruct (contains_str (last5 (set_last5 info found)) "") eqn:C.
      * apply triple_modify.
        intros s [[Hh _] | [Hh _]]; (split; [exact Hh | discriminate]).
      * apply triple_ret. intros s [HJ | [_ [Hlen Hc]]]; [exact HJ|].
        rewrite (@last5_set_last5 info found Hlen) in C. congruence.
    + intros _.
      match goal with |- triple ?A ?m _ _ => change (keeps A m) end.
      keep.
  - intros _.
    match goal with |- triple ?A ?m _ _ => change (keeps A m) end.
    keep.
Qed.

Hint Resolve breaker_foursquare_and_backup : keeps.

Lemma breaker_iteration (venue : string * string) :
  keeps (breaker_invariant w) (Enrich.iteration w venue).
Proof. unfold Enrich.iteration. keep. Qed.

End Breaker.

Lemma rejected_run_eq :
  Enrich.main search_down pub_then_taproom (Enrich.start two_scraped)
  = rejected_run.
Proof. vm_compute. reflexivity. Qed.

(** In a run of the enrichment loop, once a search was answered with a
    status other than 200, no search is sent for the rest of the run. *)
Theorem rejected_search_ends_lookups
        (w : Enrich.world) (venue_list : list (string * string))
        (d : Registry.t)
        (asked : list Enrich.entry) (e : Enrich.entry)
        (later : list Enrich.entry)
        (Hlog : Enrich.log (snd (Enrich.main w venue_list (Enrich.start d)))
                = (asked ++ e :: later)%list)
        (Hrejected : search_rejected w asked e = true) :
  existsb (fun e' => Enrich.lookup_call (snd e')) later = false.
Proof.
  assert (H0 : breaker_invariant w (enrich_loop_start w (Enrich.start d))).
  { unfold enrich_loop_start.
    apply (@breaker_quiet w (Enrich.set_available true (Enrich.start d)));
      [|reflexivity].
    split; cbn.
    - intros a x l Heq. now destruct a.
    - intros _ a x l Heq. now destruct a. }
  assert (H1 := @for_venues_keeps w (breaker_invariant w) venue_list
                  (fun venue _ => @breaker_iteration w venue) _ H0).
  assert (H2 : breaker_held w
                 (Enrich.log (snd (Enrich.main w venue_list (Enrich.start d))))).
  { rewrite main_unfold.
    assert (Hsave : forall s1, breaker_invariant w s1 ->
                               breaker_invariant w (enrich_saved s1))
      by (intros s1 Hs1; now apply breaker_quiet).
    destruct (Enrich.for_venues w venue_list
                (enrich_loop_start w (Enrich.start d)))
      as [[[] | [] |] s1]; cbn [snd]; try apply (Hsave _ H1); apply H1. }
  exact (H2 asked e later Hlog Hrejected).
Qed.

(** Two scraped venues while the lookup API answers 500: the first search is
    the last one. *)
Lemma rejected_search_ends_lookups_witness :
  existsb (fun e' => Enrich.lookup_call (snd e'))
          (skipn 2 (Enrich.log (snd rejected_run)))
  = false.
Proof.
  apply (@rejected_search_ends_lookups search_down pub_then_taproom two_scraped
           [("", Enrich.Clock)]
           ("The Pub", Enrich.SearchVenues "The Pub" "40.1,-75.2")
           (skipn 2 (Enrich.log (snd rejected_run)))).
  - rewrite rejected_run_eq. reflexivity.
  - reflexivity.
Defined.

(** ** A page request that Untappd turns down *)

(** When the check-in page of a venue that has no record, or a record with
    an empty Untappd url, is answered with a status other than 200 and 404,
    the loop ends there: the record is seven empty strings, to be tried
    again by a later run, nothing else is requested and no venue after it
    is visited. *)
Theorem untappd_rejection_ends_the_loop
        (w : Enrich.world) (name url : string)
        (rest : list (string * string)) (s : Enrich.state)
        (status_code : Z) (page : list token)
        (Hlacking : Enrich.lacks_untappd (Enrich.venue_dict s) name = Ok true)
        (Hanswer : Enrich.untappd w (Enrich.log s) url
                   = Answered status_code page)
        (Hnot404 : status_code <> 404%Z)
        (Hnot200 : status_code <> 200%Z) :
  Enrich.for_venues w ((name, url) :: rest) s
  = (Ok tt,
     Enrich.set_venue name (repeat (PStr "") 7)
       (Enrich.logged name (Enrich.GetPage url)
          (Enrich.set_current name s))).
Proof.
  cbn [Enrich.for_venues]. unfold Enrich.iteration. cbn [fst snd].
  unfold bind at 1. unfold modify at 1.
  unfold bind at 1. unfold gets at 1.
  unfold bind at 1. unfold lift at 1.
  cbn [Enrich.venue_dict Enrich.set_current]. rewrite Hlacking.
  unfold bind at 1.
  unfold Enrich.search_untappd, Enrich.requests_get, Enrich.emit.
  unfold bind at 1. unfold bind at 1. unfold bind at 1.
  cbn [Enrich.log Enrich.set_current Enrich.current].
  rewrite Hanswer. unfold ret at 1. cbn [fst snd].
  apply Z.eqb_neq in Hnot404. apply Z.eqb_neq in Hnot200.
  rewrite Hnot404, Hnot200. reflexivity.
Qed.

Lemma untappd_rejection_ends_the_loop_witness :
  Enrich.for_venues search_down
    (("The Pub", "https://untappd.com/user/a/checkin/1") :: pub_then_taproom)
    (Enrich.start [])
  = (Ok tt,
     Enrich.set_venue "The Pub" (repeat (PStr "") 7)
       (Enrich.logged "The Pub"
          (Enrich.GetPage "https://untappd.com/user/a/checkin/1")
          (Enrich.set_current "The Pub" (Enrich.start [])))).
Proof.
  apply (@untappd_rejection_ends_the_loop search_down "The Pub"
           "https://untappd.com/user/a/checkin/1" pub_then_taproom
           (Enrich.start []) 500 []).
  - reflexivity.
  - reflexivity.
  - discriminate.
  - discriminate.
Defined.

(** ** A check-in that was deleted *)

Lemma settled_as_missing_closed (name : string) (sent : list Enrich.entry) :
  enrich_closed name true (settled_as_missing name sent).
Proof.
  intros s s' [Hget Hlog] Ht.
  destruct Ht as [s ev Hq | s t | s | s b Hq | s i Hq]; try discriminate;
    split; auto.
  cbn. unfold upstream_entries in *. rewrite filter_app. cbn.
  rewrite (Hq eq_refl), app_nil_r. exact Hlog.
Qed.

(** When the check-in page of a venue to be scraped is answered with 404
    (and the lookup flag is set), the iteration ends normally with
    'Missing' in all seven columns of the record, and that page request is
    the only request it sends upstream: Foursquare is not asked. *)
Theorem deleted_checkin_settles_as_missing
        (w : Enrich.world) (name url : string) (s : Enrich.state)
        (page : list token)
        (Hlacking : Enrich.lacks_untappd (Enrich.venue_dict s) name = Ok true)
        (Havailable : Enrich.foursquare_available s = true)
        (Hanswer : Enrich.untappd w (Enrich.log s) url = Answered 404 page)
        (Hsleep : Enrich.sleep w (Enrich.log s ++ [(name, Enrich.GetPage url)])
                  = None) :
  exists s',
    Enrich.iteration w (name, url) s = (Ok Enrich.Next, s')
    /\ Dict.get (Enrich.venue_dict s') name = Some (repeat (PStr "Missing") 7)
    /\ upstream_entries (Enrich.log s')
       = (upstream_entries (Enrich.log s) ++ [(name, Enrich.GetPage url)])%list.
Proof.
  unfold Enrich.iteration. cbn [fst snd].
  unfold bind at 1. unfold modify at 1.
  unfold bind at 1. unfold gets at 1.
  unfold bind at 1. unfold lift at 1.
  cbn [Enrich.venue_dict Enrich.set_current]. rewrite Hlacking.
  unfold bind at 1.
  unfold Enrich.search_untappd, Enrich.requests_get, Enrich.emit.
  unfold bind at 1. unfold bind at 1. unfold bind at 1.
  cbn [Enrich.log Enrich.set_current Enrich.current].
  rewrite Hanswer. unfold ret at 1. cbn [fst snd Z.eqb Pos.eqb].
  unfold ret at 1.
  unfold bind at 1. unfold modify at 1.
  unfold bind at 1. unfold lift at 1. cbn [five repeat app index nth_error].
  cbn [truthy String.eqb Ascii.eqb Bool.eqb negb].
  unfold bind at 1. unfold Enrich.time_sleep, Enrich.emit.
  unfold bind at 1.
  cbn [Enrich.log Enrich.set_venue Enrich.logged Enrich.current
       Enrich.set_current].
  rewrite Hsleep. unfold ret at 1.
  unfold Enrich.foursquare_and_backup.
  unfold bind at 1. unfold gets at 1.
  unfold bind at 1. unfold gets at 1.
  unfold bind at 1. unfold lift at 1.
  cbn [Enrich.foursquare_available Enrich.venue_dict Enrich.set_venue
       Enrich.logged Enrich.set_current].
  rewrite Havailable.
  unfold Enrich.wants_foursquare, Dict.lookup.
  rewrite dict_get_set, String.eqb_refl.
  cbn [rbind index nth_error truthy String.eqb Ascii.eqb Bool.eqb negb
       contains_str existsb is_str andb orb].
  unfold bind at 1. unfold bind at 1. unfold lift at 1.
  unfold bind at 1. unfold Enrich.search_foursquare.
  unfold bind at 1. unfold lift at 1.
  unfold bind at 1. unfold lift at 1.
  unfold bind at 1. unfold lift at 1.
  cbn [index nth_error is_str String.eqb Ascii.eqb Bool.eqb].
  unfold ret at 1.
  unfold bind at 1. unfold modify at 1.
  unfold bind at 1.
  cbn [five repeat set_last5 last5 List.length Nat.sub firstn skipn app
       contains_str existsb is_str String.eqb Ascii.eqb Bool.eqb orb].
  unfold ret at 1. unfold ret at 1.
  match goal with
  | |- exists s', ?tail ?s4 = _ /\ _ =>
      destruct (@backup_when_due w name
                  (settled_as_missing name
                     (upstream_entries (Enrich.log s)
                      ++ [(name, Enrich.GetPage url)])%list)
                  (@settled_as_missing_closed _ _) s4)
        as (s' & E & Hget & Hlog)
  end.
  - split; cbn.
    + now rewrite dict_get_set, String.eqb_refl.
    + unfold upstream_entries. rewrite !filter_app. cbn.
      now rewrite app_nil_r.
  - reflexivity.
  - exists s'. split; [exact E | split; [exact Hget | exact Hlog]].
Qed.

Lemma deleted_checkin_settles_as_missing_witness :
  exists s',
    Enrich.iteration checkin_deleted
      ("The Pub", "https://untappd.com/user/a/checkin/1") (Enrich.start [])
    = (Ok Enrich.Next, s')
    /\ Dict.get (Enrich.venue_dict s') "The Pub"
       = Some (repeat (PStr "Missing") 7)
    /\ upstream_entries (Enrich.log s')
       = (upstream_entries (Enrich.log (Enrich.start []))
          ++ [("The Pub",
               Enrich.GetPage "https://untappd.com/user/a/checkin/1")])%list.
Proof.
  apply (@deleted_checkin_settles_as_missing checkin_deleted "The Pub"
           "https://untappd.com/user/a/checkin/1" (Enrich.start []) []);
    reflexivity.
Defined.

(** ** The venues of the registry *)

Lemma registry_extends_closed (d : Registry.t) (names : list string)
      (n : string) :
  In n names -> enrich_closed n false (registry_extends d names).
Proof.
  intros Hn s s' [added [Hkeys Hadded]] Ht.
  destruct Ht as [s ev Hq | s t | s | s b Hq | s i Hq];
    try (exists added; split; [exact Hkeys | exact Hadded]).
  unfold registry_extends. cbn [Enrich.venue_dict Enrich.set_venue].
  rewrite dict_keys_set.
  destruct (Dict.mem (Enrich.venue_dict s) n).
  - exists added. split; [exact Hkeys | exact Hadded].
  - exists (added ++ [n])%list. split.
    + now rewrite Hkeys, app_assoc.
    + intros x Hx. apply in_app_or in Hx.
      destruct Hx as [Hx | [<- | []]]; [now apply Hadded | exact Hn].
Qed.

(** A run of the enrichment loop drops no venue from the registry and
    keeps the venues it read in their order; a venue it adds is a venue of
    the venue list. *)
Theorem enrichment_drops_no_venue
        (w : Enrich.world) (venue_list : list (string * string))
        (d : Registry.t) :
  exists added,
    Dict.keys (Enrich.venue_dict
                 (snd (Enrich.main w venue_list (Enrich.start d))))
    = (Dict.keys d ++ added)%list
    /\ forall n, In n added -> In n (map fst venue_list).
Proof.
  assert (Hh : enrich_harmless (registry_extends d (map fst venue_list))).
  { intros s Hs. repeat split; intros; exact Hs. }
  assert (Hit : forall venue,
             In venue venue_list ->
             keeps (registry_extends d (map fst venue_list))
                   (Enrich.iteration w venue)).
  { intros venue Hv.
    apply (@iteration_any w (fst venue)); [|reflexivity].
    apply registry_extends_closed. now apply in_map. }
  assert (H0 : registry_extends d (map fst venue_list) (Enrich.start d)).
  { exists []. split; [now rewrite app_nil_r | contradiction]. }
  pose proof (@main_keeps w _ venue_list Hh Hit _ H0) as H.
  destruct (Enrich.main w venue_list (Enrich.start d)) as [[[] | e |] s1];
    exact H.
Qed.

Section PremiumVenues.

Variable w : Premium.world.
Variable d : Registry.t.
Variable venue : string.

Lemma same_venues_emit (ev : Premium.event) :
  keeps (same_venues_at d venue) (Premium.emit ev).
Proof. intros s Hs. exact Hs. Qed.

Lemma same_venues_set_venue (new : list pyval) :
  keeps (same_venues_at d venue) (modify (Premium.set_venue venue new)).
Proof.
  apply keeps_modify. intros s [Hs Hmem]. split.
  - unfold same_venues. cbn [Premium.venue_dict Premium.set_venue].
    rewrite dict_keys_set, Hmem. exact Hs.
  - unfold Dict.mem. cbn [Premium.venue_dict Premium.set_venue].
    now rewrite dict_get_set, String.eqb_refl.
Qed.

Hint Resolve same_venues_emit same_venues_set_venue : keeps.

Lemma same_venues_search (url : pyval) (coords : list pyval) :
  keeps (same_venues_at d venue) (Premium.search_foursquare w url coords).
Proof. unfold Premium.search_foursquare. keep. Qed.

Hint Resolve same_venues_search : keeps.

Lemma premium_iteration_same_venues :
  keeps (same_venues d) (Premium.iteration w venue).
Proof.
  unfold Premium.iteration.
  apply keeps_bind; [apply keeps_modify; intros s Hs; exact Hs|]. intros _.
  eapply triple_bind
    with (R := fun d0 s => same_venues d s /\ d0 = Premium.venue_dict s).
  { apply triple_gets. auto. }
  intros d0.
  eapply triple_bind with (R := fun _ => same_venues_at d venue).
  { apply triple_lift. intros s [Hs ->]. unfold Dict.lookup.
    destruct (Dict.get (Premium.venue_dict s) venue) eqn:G; [|exact Hs].
    split; [exact Hs|]. unfold Dict.mem. now rewrite G. }
  intros venue_data.
  eapply triple_weaken with (P' := same_venues_at d venue)
                            (Q' := fun _ => same_venues_at d venue)
                            (E' := same_venues_at d venue);
    [ | auto | intros ? ? []; auto | intros ? []; auto ].
  match goal with |- triple ?A ?m _ _ => change (keeps A m) end.
  keep.
Qed.

End PremiumVenues.

(** The premium pass keeps the venues of the registry as they are, in their
    order: it adds none and drops none. *)
Theorem premium_pass_keeps_the_venues (w : Premium.world) (d : Registry.t) :
  Dict.keys (Premium.venue_dict (snd (Premium.main w (Premium.start d))))
  = Dict.keys d.
Proof.
  assert (H0 : same_venues d (Premium.start d)) by reflexivity.
  pose proof (@premium_for_items_keeps w (same_venues d) (Dict.keys d)
                (@premium_iteration_same_venues w d) _ H0) as H.
  unfold Premium.main, Premium.emit, bind, gets, ret.
  cbn [Premium.venue_dict Premium.start].
  destruct (Premium.for_items w (Dict.keys d) (Premium.start d))
    as [[[] | e |] s1]; exact H.
Qed.

(** ** A parsing run that finds nothing new *)


Section IdleParse.

Variable py_int : string -> result Z.
Variable py_float : string -> result QArith_base.Q.
Variable w : Parse.world.
Hypothesis no_fault : forall l, Parse.fault w l = None.
Hypothesis no_posts : forall l prefix start, Parse.contents w l prefix start = [].



End IdleParse.



(** ** The coordinate tags of a venue page *)

Lemma venue_handle_coords (st st' : VenueHTMLParser.t) (tok : token) :
  handle st tok = Ok st' ->
  VenueHTMLParser.coords st'
  = (VenueHTMLParser.coords st ++ coordinate_content tok)%list.
Proof.
  destruct st as [found urls coords].
  destruct tok as [tag attributes | tag | data]; simpl.
  - unfold VenueHTMLParser.starttag, coordinate_tag; simpl.
    destruct (String.eqb_spec tag "meta") as [-> | Hm]; simpl.
    + unfold VenueHTMLParser.has_attr, VenueHTMLParser.attr_is,
        VenueHTMLParser.attr_lookup.
      destruct (VenueHTMLParser.attr attributes "property") as [value|];
        simpl.
      * destruct (value_is value "place:location:latitude"
                  || value_is value "place:location:longitude"); simpl;
          [destruct (VenueHTMLParser.attr attributes "content"); simpl|];
          scanned.
      * destruct (VenueHTMLParser.attr attributes "class"); simpl;
          rewrite ?andb_false_r; simpl; scanned.
    + destruct (String.eqb tag "div" || (String.eqb tag "a" || false)); simpl;
        [|scanned].
      destruct (negb (VenueHTMLParser.has_attr attributes "class")); simpl;
        [scanned|].
      destruct (negb found && String.eqb tag "div"
                && VenueHTMLParser.attr_is attributes "class" "venue-social");
        simpl; [scanned|].
      destruct (found && String.eqb tag "a"
                && VenueHTMLParser.attr_is attributes "class" "fs track-click");
        simpl; [|scanned].
      destruct (VenueHTMLParser.href_without_query attributes); simpl; scanned.
  - unfold VenueHTMLParser.endtag.
    destruct (String.eqb tag "div"); simpl; scanned.
  - scanned.
Qed.

(** A scan of a venue page that returns has collected the [content] of
    every [meta] tag whose [property] names the latitude or the longitude,
    in document order, wherever the tag stands: inside or outside the
    container of the link, latitude first or longitude first. *)
Theorem coordinates_collected_in_document_order
        (page : list token) (st : VenueHTMLParser.t)
        (Hscan : feed VenueHTMLParser.init page = Ok st) :
  VenueHTMLParser.coords st = flat_map coordinate_content page.
Proof.
  change (VenueHTMLParser.coords st
          = (VenueHTMLParser.coords VenueHTMLParser.init
             ++ flat_map coordinate_content page)%list).
  revert Hscan. generalize VenueHTMLParser.init. revert st.
  induction page as [|tok rest IH]; intros st' st.
  - simpl. intros H; inversion H; subst. now rewrite app_nil_r.
  - cbn [feed].
    destruct (handle st tok) as [st1 | e |] eqn:E; try discriminate.
    intros H. rewrite (IH _ _ H), (venue_handle_coords _ _ E).
    cbn [flat_map]. now rewrite app_assoc.
Qed.

Lemma coordinates_collected_in_document_order_witness :
  VenueHTMLParser.coords
    {| VenueHTMLParser.found_div := false;
       VenueHTMLParser.urls := ["https://foursquare.com/v/abc"];
       VenueHTMLParser.coords := [Some "-75.2"; Some "40.1"] |}
  = flat_map coordinate_content longitude_first_page.
Proof.
  apply (@coordinates_collected_in_document_order longitude_first_page).
  reflexivity.
Defined.

(** ** Comment and rating of a post *)

Lemma pystr_rev_app (a b : string) :
  PyStr.rev (a ++ b) = (PyStr.rev b ++ PyStr.rev a)%string.
Proof.
  induction a as [|c a IH]; cbn.
  - now rewrite str_app_nil.
  - now rewrite IH, str_app_assoc.
Qed.

Lemma pystr_rev_involutive (s : string) : PyStr.rev (PyStr.rev s) = s.
Proof.
  induction s as [|c s IH]; cbn; [reflexivity|].
  rewrite pystr_rev_app, IH. reflexivity.
Qed.

Lemma prefix_char (ch c : ascii) (s : string) :
  String.prefix (String ch "") (String c s)
  = if ascii_dec ch c then true else false.
Proof.
  simpl. destruct (ascii_dec ch c); [now destruct s | reflexivity].
Qed.

Lemma contains_char_app (ch : ascii) (a b : string) :
  PyStr.contains (String ch "") (a ++ b)
  = PyStr.contains (String ch "") a || PyStr.contains (String ch "") b.
Proof.
  induction a as [|c a IH].
  - reflexivity.
  - cbn [append PyStr.contains]. rewrite !prefix_char, IH.
    now rewrite orb_assoc.
Qed.

Lemma contains_char_rev (ch : ascii) (s : string) :
  PyStr.contains (String ch "") (PyStr.rev s)
  = PyStr.contains (String ch "") s.
Proof.
  induction s as [|c s IH]; [reflexivity|].
  cbn [PyStr.rev]. rewrite contains_char_app, IH.
  cbn [PyStr.contains]. rewrite !prefix_char.
  destruct (ascii_dec ch c); cbn; now rewrite ?orb_true_r, ?orb_false_r.
Qed.

Lemma split_go_no_cut (sep : string) (s : string) :
  forall cur, PyStr.split_go sep (Some 0) 0 cur s = [(cur ++ s)%string].
Proof.
  induction s as [|c s IH]; intros cur; cbn [PyStr.split_go].
  - now rewrite str_app_nil.
  - cbn [PyStr.may_cut andb]. rewrite IH. now rewrite str_app_assoc.
Qed.

Lemma split_go_first_char (ch : ascii) (s : string) :
  forall cur,
    (PyStr.contains (String ch "") s = false
     /\ PyStr.split_go (String ch "") (Some 1) 0 cur s = [(cur ++ s)%string])
    \/ exists a b,
        s = (a ++ String ch "" ++ b)%string
        /\ PyStr.contains (String ch "") a = false
        /\ PyStr.split_go (String ch "") (Some 1) 0 cur s
           = [(cur ++ a)%string; b].
Proof.
  induction s as [|c s IH]; intros cur.
  - left. split; [reflexivity|]. cbn. now rewrite str_app_nil.
  - cbn [PyStr.split_go PyStr.may_cut andb PyStr.contains].
    rewrite prefix_char.
    destruct (ascii_dec ch c) as [<- | Hne].
    + right. exists "", s. split; [reflexivity|]. split; [reflexivity|].
      cbn [PyStr.after_cut Nat.pred String.length].
      now rewrite split_go_no_cut, str_app_nil.
    + destruct (IH (cur ++ String c "")%string)
        as [[Hno Hs] | (a & b & -> & Hno & Hs)].
      * left. split; [exact Hno|]. now rewrite Hs, str_app_assoc.
      * right. exists (String c a), b. split; [reflexivity|]. split.
        -- cbn [PyStr.contains]. rewrite prefix_char.
           destruct (ascii_dec ch c); [contradiction | exact Hno].
        -- now rewrite Hs, str_app_assoc.
Qed.

Lemma rsplit1_last_char (ch : ascii) (s : string) :
  (PyStr.contains (String ch "") s = false
   /\ PyStr.rsplit1 s (String ch "") = [s])
  \/ exists c r,
      s = (c ++ String ch "" ++ r)%string
      /\ PyStr.contains (String ch "") r = false
      /\ PyStr.rsplit1 s (String ch "") = [c; r].
Proof.
  unfold PyStr.rsplit1. cbn [PyStr.rev append].
  destruct (split_go_first_char ch (PyStr.rev s) "")
    as [[Hno Hs] | (a & b & Hrev & Hno & Hs)].
  - left. rewrite contains_char_rev in Hno. split; [exact Hno|].
    rewrite Hs. cbn. now rewrite pystr_rev_involutive.
  - right. exists (PyStr.rev b), (PyStr.rev a).
    split; [|split].
    + rewrite <- (pystr_rev_involutive s), Hrev.
      rewrite !pystr_rev_app. cbn [PyStr.rev append].
      now rewrite str_app_assoc.
    + now rewrite contains_char_rev.
    + rewrite Hs. reflexivity.
Qed.

(** In a row that [parse_post] returns, the comment is the summary up to
    its last "(" and the rating is read from what follows it, up to
    "/5 Stars"; text there that [float] rejects with ValueError gives the
    empty rating.  A summary without "(" is the comment, with the empty
    rating. *)
Theorem comment_ends_at_last_parenthesis
        (py_int : string -> result Z)
        (py_float : string -> result QArith_base.Q)
        (post_id : string) (post : Parse.payload) (row : Parse.row)
        (Hrow : Parse.parse_row py_int py_float post_id post = Ok row) :
  (PyStr.contains "(" (Parse.summary post) = false
   /\ Parse.comment row = Parse.summary post
   /\ Parse.rating row = None)
  \/ exists rest first,
      Parse.summary post = (Parse.comment row ++ "(" ++ rest)%string
      /\ PyStr.contains "(" rest = false
      /\ index (PyStr.split rest "/5 Stars") 0 = Ok first
      /\ ((exists q, py_float first = Ok q /\ Parse.rating row = Some q)
          \/ (py_float first = Raise ValueError /\ Parse.rating row = None)).
Proof.
  unfold Parse.parse_row in Hrow.
  destruct (py_int _) as [g | |]; try discriminate.
  destruct (Parse.third_from_end _) as [u | |]; try discriminate.
  destruct (index (PyStr.split post_id "/") 0) as [b | |]; try discriminate.
  destruct (Parse.parse_title _) as [bv | |]; try discriminate.
  cbn [rbind] in Hrow.
  destruct (rsplit1_last_char "("%char (Parse.summary post))
    as [[Hno Hs] | (c & r & Hsum & Hno & Hs)]; rewrite Hs in Hrow.
  - left. cbn [rbind] in Hrow. injection Hrow as <-. cbn. auto.
  - right.
    destruct (index (PyStr.split r "/5 Stars") 0) as [first | |] eqn:I;
      try discriminate.
    cbn [rbind] in Hrow. unfold Parse.parse_rating in Hrow.
    exists r, first.
    destruct (py_float first) as [q | e |] eqn:F; try discriminate.
    + cbn [rbind] in Hrow. injection Hrow as <-. cbn.
      repeat split; auto. left. now exists q.
    + destruct e; try discriminate.
      cbn [rbind] in Hrow. injection Hrow as <-. cbn.
      repeat split; auto.
Qed.

Lemma comment_ends_at_last_parenthesis_witness :
  (PyStr.contains "(" (Parse.summary rated_post) = false
   /\ Parse.comment rated_row = Parse.summary rated_post
   /\ Parse.rating rated_row = None)
  \/ exists rest first,
      Parse.summary rated_post = (Parse.comment rated_row ++ "(" ++ rest)%string
      /\ PyStr.contains "(" rest = false
      /\ index (PyStr.split rest "/5 Stars") 0 = Ok first
      /\ ((exists q, float_4_5 first = Ok q /\ Parse.rating rated_row = Some q)
          \/ (float_4_5 first = Raise ValueError
              /\ Parse.rating rated_row = None)).
Proof.
  apply (@comment_ends_at_last_parenthesis int_101 float_4_5 "68/68-101"
           rated_post rated_row).
  reflexivity.
Defined.

(** ** The width of the records *)

Lemma extract_five (item : Foursquare.venue_item) (row : list pyval) :
  Enrich.extract item = Some row -> List.length row = 5.
Proof.
  unfold Enrich.extract.
  destruct (Foursquare.formattedAddress _); [|discriminate].
  destruct (Foursquare.lat _); [|discriminate].
  destruct (Foursquare.lng _); [|discriminate].
  destruct (match Foursquare.item_categories item with
            | [] => _ | _ => _ end); [|discriminate].
  destruct (Foursquare.country _); [|discriminate].
  intros H. injection H as <-. reflexivity.
Qed.

Lemma first_match_five (venue_id : string)
      (venue_list : list Foursquare.venue_item) (row : list pyval) :
  Enrich.first_match venue_id venue_list = Some row -> List.length row = 5.
Proof.
  induction venue_list as [|item rest IH]; cbn; [discriminate|].
  destruct (negb (String.eqb (Foursquare.id item) venue_id)); [exact IH|].
  destruct (Enrich.extract item) as [r|] eqn:E; [|exact IH].
  intros H. injection H as <-. exact (extract_five _ E).
Qed.

Lemma set_last5_seven (info found : list pyval) :
  List.length info = 7 -> List.length found = 5 ->
  List.length (set_last5 info found) = 7.
Proof.
  intros Hi Hf. unfold set_last5.
  rewrite length_app, length_firstn, Hi, Hf. reflexivity.
Qed.

Lemma dict_get_some_in {V : Type} (d : Dict.t V) (k : string) (v : V) :
  Dict.get d k = Some v -> In (k, v) d.
Proof.
  induction d as [|[k' v'] d IH]; cbn; [discriminate|].
  destruct (String.eqb_spec k k') as [<- | Hk].
  - intros H. injection H as <-. now left.
  - intros H. right. now apply IH.
Qed.

Section Width.

Variable w : Enrich.world.

Lemma seven_emit (ev : Enrich.event) : keeps seven_columns (Enrich.emit ev).
Proof. intros s Hs. exact Hs. Qed.

Lemma seven_set_time (t : QArith_base.Q) :
  keeps seven_columns (modify (Enrich.set_time t)).
Proof. apply keeps_modify. intros s Hs. exact Hs. Qed.

Lemma seven_set_available (b : bool) :
  keeps seven_columns (modify (Enrich.set_available b)).
Proof. apply keeps_modify. intros s Hs. exact Hs. Qed.

Lemma seven_set_current (n : string) :
  keeps seven_columns (modify (Enrich.set_current n)).
Proof. apply keeps_modify. intros s Hs. exact Hs. Qed.

Lemma seven_set_venue (n : string) (info : list pyval) :
  List.length info = 7 ->
  forall s, seven_columns s -> seven_columns (Enrich.set_venue n info s).
Proof.
  intros Hlen s Hs. unfold seven_columns, seven_wide in *.
  cbn [Enrich.venue_dict Enrich.set_venue].
  induction (Enrich.venue_dict s) as [|[k v] d IH]; cbn [Dict.set].
  - constructor; [exact Hlen | constructor].
  - inversion Hs as [|x l Hv Hd]; subst.
    destruct (String.eqb n k); constructor; auto.
Qed.

Hint Resolve seven_emit seven_set_time seven_set_available seven_set_current
  : keeps.

Lemma seven_requests_get (url : string) :
  keeps seven_columns (Enrich.requests_get w url).
Proof. unfold Enrich.requests_get. keep. Qed.

Lemma seven_time_sleep (ev : Enrich.event) :
  keeps seven_columns (Enrich.time_sleep w ev).
Proof. unfold Enrich.time_sleep. keep. Qed.

Lemma seven_time_time : keeps seven_columns (Enrich.time_time w).
Proof. unfold Enrich.time_time. keep. Qed.

Lemma seven_backup_data : keeps seven_columns Enrich.backup_data.
Proof. unfold Enrich.backup_data. keep. Qed.

Hint Resolve seven_requests_get seven_time_sleep seven_time_time
     seven_backup_data : keeps.

(** Walks to the results of a search, which are lists of five cells. *)
Ltac cells :=
  repeat first
    [ apply triple_ret; intros ? ?; split; [assumption | reflexivity]
    | eapply triple_bind with (R := fun _ => seven_columns);
      [ solve [ match goal with
                | |- triple ?A ?m _ _ => change (keeps A m)
                end; keep ]
      | intros ? ]
    | match goal with
      | |- triple _ (if ?b then _ else _) _ _ => destruct b
      | |- triple _ (match ?x with _ => _ end) _ _ => destruct x
      end ].

Lemma search_untappd_five (url : string) :
  triple seven_columns (Enrich.search_untappd w url) five_cells seven_columns.
Proof. unfold Enrich.search_untappd. cells. Qed.

Lemma search_foursquare_five (name : string) (info : list pyval) :
  triple seven_columns (Enrich.search_foursquare w name info)
         five_cells seven_columns.
Proof.
  intros s Hs.
  unfold Enrich.search_foursquare, bind, lift, ret, Enrich.emit.
  destruct (index info 1) as [venue_url | |]; try exact Hs.
  destruct (index info 3) as [latitude | |]; try exact Hs.
  destruct (index info 4) as [longitude | |]; try exact Hs.
  destruct (is_str venue_url "Missing"); [split; [exact Hs | reflexivity]|].
  destruct (id_of_url venue_url) as [venue_id | |]; try exact Hs.
  destruct (join_cells "," [latitude; longitude]) as [ll | |]; try exact Hs.
  destruct (Enrich.foursquare w (Enrich.log s) name ll)
    as [status_code venue_list | e]; [|exact Hs].
  destruct (negb (status_code =? 200)%Z); [split; [exact Hs | reflexivity]|].
  destruct (Enrich.first_match venue_id venue_list) as [row|] eqn:F;
    (split; [exact Hs|]); [exact (first_match_five _ _ F) | reflexivity].
Qed.

Lemma seven_foursquare_and_backup (name : string) (slept : bool) :
  keeps seven_columns (Enrich.foursquare_and_backup w name slept).
Proof.
  unfold Enrich.foursquare_and_backup.
  apply keeps_bind; [apply keeps_gets|]. intros available.
  eapply triple_bind
    with (R := fun d s => seven_columns s /\ d = Enrich.venue_dict s).
  { apply triple_gets. auto. }
  intros d.
  eapply triple_bind
    with (R := fun _ s => seven_columns s /\ d = Enrich.venue_dict s).
  { apply triple_lift. intros s [Hs Hd].
    destruct (Enrich.wants_foursquare available d name); auto. }
  intros wanted.
  eapply triple_bind with (R := fun _ => seven_columns).
  - destruct wanted; [|apply triple_ret; now intros s [Hs _]].
    eapply triple_bind
      with (R := fun info s => seven_columns s /\ List.length info = 7).
    { apply triple_lift. intros s [Hs ->]. unfold Dict.lookup.
      destruct (Dict.get (Enrich.venue_dict s) name) as [info|] eqn:G;
        [|exact Hs].
      split; [exact Hs|].
      apply dict_get_some_in in G.
      exact (proj1 (Forall_forall _ _) Hs _ G). }
    intros info.
    eapply triple_bind
      with (R := fun found s => seven_columns s /\ List.length info = 7
                                /\ List.length found = 5).
    { intros s [Hs Hi]. pose proof (@search_foursquare_five name info s Hs) as H.
      destruct (Enrich.search_foursquare w name info s) as [[found | e |] s1];
        [destruct H; auto | exact H | exact H]. }
    intros found.
    eapply triple_bind with (R := fun _ => seven_columns).
    { apply triple_modify. intros s (Hs & Hi & Hf).
      apply seven_set_venue; [now apply set_last5_seven | exact Hs]. }
    intros _.
    match goal with |- triple ?A ?m _ _ => change (keeps A m) end.
    keep.
  - intros _.
    match goal with |- triple ?A ?m _ _ => change (keeps A m) end.
    keep.
Qed.

Hint Resolve seven_foursquare_and_backup : keeps.

Lemma seven_iteration (venue : string * string) :
  keeps seven_columns (Enrich.iteration w venue).
Proof.
  unfold Enrich.iteration.
  apply keeps_bind; [auto with keeps|]. intros _.
  apply keeps_bind; [apply keeps_gets|]. intros d.
  apply keeps_bind; [apply keeps_lift|]. intros lacking.
  destruct lacking; [|auto with keeps].
  eapply triple_bind with (R := five_cells).
  { apply search_untappd_five. }
  intros found.
  eapply triple_bind with (R := fun _ => seven_columns).
  { apply triple_modify. intros s [Hs Hf].
    apply seven_set_venue; [|exact Hs].
    rewrite length_app, Hf. reflexivity. }
  intros _.
  match goal with |- triple ?A ?m _ _ => change (keeps A m) end.
  keep.
Qed.

End Width.

(** When every record read from venue_locations.csv has seven columns,
    every record of the registry has seven columns after a run of the
    enrichment loop, however the run ends: a record it adds or rewrites is
    five cells of a search next to two cells it keeps or adds.  So every
    row of the table it saves has eight cells. *)
Theorem enrichment_keeps_seven_columns
        (w : Enrich.world) (venue_list : list (string * string))
        (d : Registry.t)
        (Hread : seven_wide d) :
  seven_wide (Enrich.venue_dict
                (snd (Enrich.main w venue_list (Enrich.start d))))
  /\ Forall (fun row => List.length row = 8)
            (Registry.write_dict_to_csv
               (Enrich.venue_dict
                  (snd (Enrich.main w venue_list (Enrich.start d))))).
Proof.
  assert (Hh : enrich_harmless seven_columns).
  { intros s Hs. repeat split; intros; exact Hs. }
  pose proof (@main_keeps w seven_columns venue_list Hh
                (fun venue _ => @seven_iteration w venue)
                (Enrich.start d) Hread) as H.
  assert (H7 : seven_columns
                 (snd (Enrich.main w venue_list (Enrich.start d)))).
  { destruct (Enrich.main w venue_list (Enrich.start d)) as [[[] | e |] s1];
      exact H. }
  split; [exact H7|].
  unfold Registry.write_dict_to_csv. apply Forall_map.
  unfold seven_columns, seven_wide in H7.
  eapply Forall_impl; [|exact H7].
  intros item Hi. cbn. now rewrite Hi.
Qed.

Lemma enrichment_keeps_seven_columns_witness :
  seven_wide (Enrich.venue_dict
                (snd (Enrich.main search_down pub_then_taproom
                        (Enrich.start two_scraped))))
  /\ Forall (fun row => List.length row = 8)
            (Registry.write_dict_to_csv
               (Enrich.venue_dict
                  (snd (Enrich.main search_down pub_then_taproom
                          (Enrich.start two_scraped))))).
Proof.
  apply (@enrichment_keeps_seven_columns search_down pub_then_taproom
           two_scraped).
  repeat constructor.
Defined.

(** ** Where the next listing starts *)








(** ** The width of the records in the premium pass *)

Lemma seven_wide_set (d : Registry.t) (n : string) (info : list pyval) :
  seven_wide d -> List.length info = 7 -> seven_wide (Dict.set d n info).
Proof.
  unfold seven_wide. intros Hd Hlen.
  induction d as [|[k v] d IH]; cbn [Dict.set].
  - constructor; [exact Hlen | constructor].
  - inversion Hd as [|x l Hv Hd']; subst.
    destruct (String.eqb n k); constructor; auto.
Qed.

Lemma triple_assume {S A : Type} (P : S -> Prop) (fact : Prop) (m : M S A)
      (Q : A -> S -> Prop) (E : S -> Prop) :
  (fact -> triple P m Q E) -> triple (fun s => P s /\ fact) m Q E.
Proof. intros H s [Hs Hf]. exact (H Hf s Hs). Qed.

Section PremiumWidth.

Variable w : Premium.world.

Lemma premium_seven_emit (ev : Premium.event) :
  keeps premium_seven (Premium.emit ev).
Proof. intros s Hs. exact Hs. Qed.

Lemma premium_seven_set_current (n : string) :
  keeps premium_seven (modify (Premium.set_current n)).
Proof. apply keeps_modify. intros s Hs. exact Hs. Qed.

Hint Resolve premium_seven_emit premium_seven_set_current : keeps.

Lemma premium_search_five (url latitude longitude : pyval) :
  triple premium_seven
         (Premium.search_foursquare w url [latitude; longitude])
         (fun found s => premium_seven s /\ List.length found = 5)
         premium_seven.
Proof.
  intros s Hs.
  unfold Premium.search_foursquare, bind, lift, ret, Premium.emit.
  destruct (id_of_url url) as [venue_id | |]; try exact Hs.
  destruct (Premium.foursquare w (Premium.log s) venue_id)
    as [status_code data | e]; [|exact Hs].
  destruct (status_code =? 400)%Z; [split; [exact Hs | reflexivity]|].
  destruct (negb (status_code =? 200)%Z); [split; [exact Hs | reflexivity]|].
  destruct (Foursquare.venue_location data) as [location|];
    [|split; [exact Hs | reflexivity]].
  destruct (Foursquare.venue_categories data) as [categories|];
    split; first [exact Hs | reflexivity].
Qed.

Lemma premium_seven_iteration (venue : string) :
  keeps premium_seven (Premium.iteration w venue).
Proof.
  unfold Premium.iteration.
  apply keeps_bind; [auto with keeps|]. intros _.
  eapply triple_bind
    with (R := fun d s => premium_seven s /\ d = Premium.venue_dict s).
  { apply triple_gets. auto. }
  intros d.
  eapply triple_bind
    with (R := fun info s => premium_seven s /\ List.length info = 7).
  { apply triple_lift. intros s [Hs ->]. unfold Dict.lookup.
    destruct (Dict.get (Premium.venue_dict s) venue) as [info|] eqn:G;
      [|exact Hs].
    split; [exact Hs|]. apply dict_get_some_in in G.
    exact (proj1 (Forall_forall _ _) Hs _ G). }
  intros venue_data. apply triple_assume. intros Hlen.
  match goal with |- triple ?A ?m _ _ => change (keeps A m) end.
  apply keeps_bind; [apply keeps_lift|]. intros foursquare_url.
  apply keeps_bind; [apply keeps_lift|]. intros latitude.
  apply keeps_bind; [apply keeps_lift|]. intros longitude.
  destruct (negb (contains_str venue_data "Missing")
            || is_str foursquare_url "Missing"); [apply keeps_ret|].
  eapply triple_bind
    with (R := fun found s => premium_seven s /\ List.length found = 5).
  { apply premium_search_five. }
  intros found.
  eapply triple_bind with (R := fun _ => premium_seven).
  { apply triple_modify. intros s [Hs Hf].
    apply seven_wide_set; [exact Hs | now apply set_last5_seven]. }
  intros _.
  match goal with |- triple ?A ?m _ _ => change (keeps A m) end.
  keep.
Qed.

End PremiumWidth.

(** When every record read from venue_locations.csv has seven columns,
    every record has seven columns after the premium pass, however it
    ends: the row of a details request, found or not, is five cells. *)
Theorem premium_pass_keeps_seven_columns
        (w : Premium.world) (d : Registry.t)
        (Hread : seven_wide d) :
  seven_wide (Premium.venue_dict (snd (Premium.main w (Premium.start d)))).
Proof.
  pose proof (@premium_for_items_keeps w premium_seven (Dict.keys d)
                (@premium_seven_iteration w) (Premium.start d) Hread) as H.
  unfold Premium.main, Premium.emit, bind, gets, ret.
  cbn [Premium.venue_dict Premium.start].
  destruct (Premium.for_items w (Dict.keys d) (Premium.start d))
    as [[[] | e |] s1]; exact H.
Qed.

Lemma premium_pass_keeps_seven_columns_witness :
  seven_wide (Premium.venue_dict
                (snd (Premium.main details_found (Premium.start two_missing)))).
Proof.
  apply (@premium_pass_keeps_seven_columns details_found two_missing).
  repeat constructor.
Defined.
